(** * askjson: schema analysis, visibility filtering and jq repair (src/gui.py)

    A shallow embedding of the pure core of [src/gui.py]:
    - [JsonSchemaAnalyzer] (analyze_json, _analyze_object, _compute_value_stats,
      _get_examples, _compute_array_stats);
    - [JsonSchemaViewer.update_schema_tree], [JsonSchemaTreeWidget._get_item_path]
      and [JsonSchemaViewer._get_schema_at_path];
    - [JsonViewerWindow.filter_json_by_visibility] and the window's handling of
      the hidden-path set;
    - [ChatWidget._fix_jq_syntax].

    Python values are the inductive [py]; a dict is an association list whose
    item assignment [d[k] = v] is [dict_set] (overwrite in place, else append,
    as CPython's insertion-ordered dict does).  Python floats are modelled by
    exact rationals: the [statistics] module computes with exact fractions and
    only rounds at the end.  The one irrational result, [statistics.stdev], is
    kept as [PSqrt q], the float [math.sqrt(q)].  Where that final rounding
    leaves the float range, the [statistics] calls raise [OverflowError]
    ([mean_raises], [median_raises], [stdev_raises]); the special floats
    [inf] and [nan] are not values of [py].  The global state of Python's
    [random] module is threaded explicitly as a state of type [R]. *)

From Stdlib Require Import ZArith QArith Qabs Lqa String Ascii List Bool Lia Sorted Permutation.
Import ListNotations.
Set Warnings "-register-all".
Open Scope string_scope.
Open Scope list_scope.

(** ** Python values *)

Inductive py : Type :=
| PNone
| PBool (b : bool)
| PInt (z : Z)
| PFloat (q : Q)
| PSqrt (q : Q)
| PStr (s : string)
| PList (l : list py)
| PTuple (l : list py)
| PDict (d : list (string * py)).

Inductive pytype := TNone | TBool | TInt | TFloat | TStr | TList | TTuple | TDict.

Definition type_of (v : py) : pytype :=
  match v with
  | PNone => TNone | PBool _ => TBool | PInt _ => TInt
  | PFloat _ | PSqrt _ => TFloat | PStr _ => TStr
  | PList _ => TList | PTuple _ => TTuple | PDict _ => TDict
  end.

Definition pytype_eqb (a b : pytype) : bool :=
  match a, b with
  | TNone, TNone | TBool, TBool | TInt, TInt | TFloat, TFloat
  | TStr, TStr | TList, TList | TTuple, TTuple | TDict, TDict => true
  | _, _ => false
  end.

(** [type(v).__name__] *)
Definition type_name (v : py) : string :=
  match type_of v with
  | TNone => "NoneType" | TBool => "bool" | TInt => "int" | TFloat => "float"
  | TStr => "str" | TList => "list" | TTuple => "tuple" | TDict => "dict"
  end.

(** [isinstance(v, T)]: [bool] is a subclass of [int]. *)
Definition isinstance (v : py) (t : pytype) : bool :=
  pytype_eqb (type_of v) t || (pytype_eqb t TInt && pytype_eqb (type_of v) TBool).

(** [isinstance(v, (int, float))] *)
Definition is_int_or_float (v : py) : bool :=
  isinstance v TInt || isinstance v TFloat.

Definition is_str (v : py) : bool := isinstance v TStr.

Definition is_dict (v : py) : bool := isinstance v TDict.

(** ** Dicts with string keys *)

Fixpoint dict_get (k : string) (d : list (string * py)) : option py :=
  match d with
  | [] => None
  | (k', v) :: r => if String.eqb k k' then Some v else dict_get k r
  end.

Definition dict_has (k : string) (d : list (string * py)) : bool :=
  match dict_get k d with Some _ => true | None => false end.

(** [d[k] = v] *)
Fixpoint dict_set (k : string) (v : py) (d : list (string * py)) : list (string * py) :=
  match d with
  | [] => [(k, v)]
  | (k', v') :: r => if String.eqb k k' then (k', v) :: r else (k', v') :: dict_set k v r
  end.

(** ** Numbers *)

(** The numeric value of an [int], [float] or [bool] ([True] is 1). *)
Definition num (v : py) : Q :=
  match v with
  | PBool b => if b then 1 else 0
  | PInt z => inject_Z z
  | PFloat q => q
  | _ => 0
  end.

Definition qlt (a b : Q) : bool := negb (Qle_bool b a).

(** [min(arr)] / [max(arr)]: the current extreme is replaced only by a
    strictly smaller (larger) item, so the first extreme is returned. *)
Fixpoint py_min_from (cur : py) (l : list py) : py :=
  match l with
  | [] => cur
  | x :: r => py_min_from (if qlt (num x) (num cur) then x else cur) r
  end.

Fixpoint py_max_from (cur : py) (l : list py) : py :=
  match l with
  | [] => cur
  | x :: r => py_max_from (if qlt (num cur) (num x) then x else cur) r
  end.

Definition py_min (l : list py) : py :=
  match l with [] => PNone | x :: r => py_min_from x r end.

Definition py_max (l : list py) : py :=
  match l with [] => PNone | x :: r => py_max_from x r end.

Definition qsum (l : list py) : Q := fold_right (fun x acc => num x + acc) 0 l.

(** [statistics.mean]: the exact mean, converted to the type [T] of the data.
    [T] is [float] as soon as one item is a float, [int] otherwise; an [int]
    result is only kept when the fraction is integral. *)
Definition stat_mean (l : list py) : py :=
  let m := Qred (qsum l / inject_Z (Z.of_nat (length l))) in
  if existsb (fun x => isinstance x TFloat) l then PFloat m
  else if Z.eqb (Zpos (Qden m)) 1 then PInt (Qnum m) else PFloat m.

(** [sorted(data)]: a stable insertion sort on the numeric value. *)
Fixpoint insert_asc (x : py) (l : list py) : list py :=
  match l with
  | [] => [x]
  | y :: r => if qlt (num x) (num y) then x :: y :: r else y :: insert_asc x r
  end.

Definition sort_asc (l : list py) : list py :=
  fold_left (fun acc x => insert_asc x acc) l [].

(** [statistics.median] *)
Definition stat_median (l : list py) : py :=
  let d := sort_asc l in
  let n := length d in
  if Nat.odd n then nth (Nat.div n 2) d PNone
  else PFloat ((num (nth (Nat.div n 2 - 1) d PNone) + num (nth (Nat.div n 2) d PNone)) / 2).

(** The sum of squared deviations from the exact mean, as [statistics._ss]. *)
Definition sum_sq_dev (l : list py) : Q :=
  let m := qsum l / inject_Z (Z.of_nat (length l)) in
  fold_right (fun x acc => (num x - m) * (num x - m) + acc) 0 l.

Definition sample_variance (l : list py) : Q :=
  Qred (sum_sq_dev l / inject_Z (Z.of_nat (length l - 1))).

(** [statistics.stdev] for at least two items: the square root of the sample
    variance (for fewer items it raises, which the caller never lets happen). *)
Definition stat_stdev (l : list py) : py := PSqrt (sample_variance l).

(** *** Leaving the float range

    The largest finite float is [(2^53 - 1) * 2^971].  Rounding an exact value
    of magnitude at least [2^1024 - 2^970] (the midpoint to [2^1024]) to 53
    bits goes past it, and the conversions that round an exact value to a
    float, [float(n)] for an [int], the true division [n / d] of two [int]s
    and [float(Fraction)], then raise [OverflowError]. *)
Definition float_overflow_bound : Q := inject_Z (2 ^ 1024 - 2 ^ 970).

Definition to_float_overflows (q : Q) : bool := Qle_bool float_overflow_bound (Qabs q).

(** [statistics.mean] raises when [_convert] turns the exact mean into a
    float (the result [stat_mean] is then a [PFloat]) out of the float range;
    an integral mean of [int]s is returned as an [int] and never raises. *)
Definition mean_raises (l : list py) : bool :=
  match stat_mean l with
  | PFloat m => to_float_overflows m
  | _ => false
  end.

(** [statistics.median] raises [StatisticsError] on no data; otherwise it
    can only raise in the even case, computing [(data[i - 1] + data[i]) / 2]:
    two [int]s (or [bool]s) are added exactly and the true division by 2
    raises when the half is out of the float range; with a [float] operand
    an [int] operand is first converted by [float()], which may raise, while
    a float sum out of range gives [inf] and raises nothing. *)
Definition median_raises (l : list py) : bool :=
  let d := sort_asc l in
  let n := length d in
  if Nat.eqb n 0 then true
  else if Nat.odd n then false
  else let a := nth (Nat.div n 2 - 1) d PNone in
       let b := nth (Nat.div n 2) d PNone in
       if isinstance a TFloat || isinstance b TFloat
       then (negb (isinstance a TFloat) && to_float_overflows (num a))
            || (negb (isinstance b TFloat) && to_float_overflows (num b))
       else to_float_overflows ((num a + num b) / 2).

(** [statistics.stdev] raises [StatisticsError] with fewer than two items;
    otherwise [_float_sqrt_of_frac] ends with a true division of [int]s that
    rounds the square root of the sample variance to a float, which raises
    when that root reaches [float_overflow_bound]. *)
Definition stdev_raises (l : list py) : bool :=
  Nat.ltb (length l) 2
  || Qle_bool (float_overflow_bound * float_overflow_bound) (sample_variance l).

(** The three calls as they behave: [None] when the call raises. *)
Definition statistics_mean (l : list py) : option py :=
  if mean_raises l then None else Some (stat_mean l).

Definition statistics_median (l : list py) : option py :=
  if median_raises l then None else Some (stat_median l).

Definition statistics_stdev (l : list py) : option py :=
  if stdev_raises l then None else Some (stat_stdev l).

(** Magnitude below [2^1023], half the float range. *)
Definition half_float_range : Q := inject_Z (2 ^ 1023).

Definition in_half_float_range (v : py) : bool := qlt (Qabs (num v)) half_float_range.

(** ** The frequency map of [collections.Counter] *)

(** [Counter(arr)]: counts in first-encountered order. *)
Fixpoint counter_add (x : string) (c : list (string * nat)) : list (string * nat) :=
  match c with
  | [] => [(x, 1%nat)]
  | (y, n) :: r => if String.eqb x y then (y, S n) :: r else (y, n) :: counter_add x r
  end.

Definition counter (l : list string) : list (string * nat) :=
  fold_left (fun c x => counter_add x c) l [].

(** [sorted(items, key=count, reverse=True)]: stable, so equal counts keep
    their first-encountered order. *)
Fixpoint insert_desc (p : string * nat) (l : list (string * nat)) : list (string * nat) :=
  match l with
  | [] => [p]
  | q :: r => if Nat.leb (snd p) (snd q) then q :: insert_desc p r else p :: q :: r
  end.

Definition sort_desc (l : list (string * nat)) : list (string * nat) :=
  fold_left (fun acc p => insert_desc p acc) l [].

(** [counter.most_common(n)] and [counter.most_common()] *)
Definition most_common_n (n : nat) (c : list (string * nat)) : list (string * nat) :=
  firstn n (sort_desc c).

Definition most_common_all (c : list (string * nat)) : list (string * nat) :=
  sort_desc c.

(** [lst[:-6:-1]]: the last five items, last first. *)
Definition slice_last5_rev {A} (l : list A) : list A := firstn 5 (rev l).

Definition common_entry (p : string * nat) : py :=
  PDict [("value", PStr (fst p)); ("count", PInt (Z.of_nat (snd p)))].

Definition str_of (v : py) : string := match v with PStr s => s | _ => EmptyString end.

Definition str_len (v : py) : nat := String.length (str_of v).

(** ** [JsonSchemaAnalyzer] *)

Section Analyzer.

(** The state of Python's global [random] module and [random.sample]:
    [rsample s pop k] draws [k] elements of [pop]. *)
Variable R : Type.
Variable rsample : R -> list nat -> nat -> list nat * R.

(** [_compute_array_stats] *)
Definition compute_array_stats (s : R) (arr : list py) : list (string * py) * R :=
  let st := [("count", PInt (Z.of_nat (length arr)))] in
  match arr with
  | [] => (st, s)
  | a0 :: _ =>
    let n := length arr in
    let all_same := forallb (fun x => isinstance x (type_of a0)) arr in
    let st := dict_set "uniform_type" (PBool all_same) st in
    if all_same && forallb is_int_or_float arr then
      let st := dict_set "min" (py_min arr) st in
      let st := dict_set "max" (py_max arr) st in
      (* [try: ... except Exception: pass]: an exception keeps the keys
         assigned so far and skips the rest of the block *)
      let st :=
        match statistics_mean arr with
        | None => st
        | Some m =>
          let st := dict_set "mean" m st in
          let r := if Nat.ltb 1 n
                   then match statistics_median arr with
                        | None => None
                        | Some md =>
                          let st := dict_set "median" md st in
                          (* the inner [try: ... except: pass] around [stdev] *)
                          Some (match statistics_stdev arr with
                                | Some sd => dict_set "stdev" sd st
                                | None => st
                                end)
                        end
                   else Some st in
          match r with
          | None => st
          | Some st =>
            if Nat.ltb 5 n
            then let ex := [a0; last arr PNone] in
                 let mid := Nat.div n 2 in
                 let ex := if Nat.ltb 0 mid && Nat.ltb mid n
                           then ex ++ [nth mid arr PNone] else ex in
                 dict_set "examples" (PList ex) st
            else st
          end
        end in
      (st, s)
    else if all_same && forallb is_str arr then
      let lengths := map str_len arr in
      let st := dict_set "min_length" (PInt (Z.of_nat (fold_left Nat.min lengths (hd 0%nat lengths)))) st in
      let st := dict_set "max_length" (PInt (Z.of_nat (fold_left Nat.max lengths (hd 0%nat lengths)))) st in
      let st := dict_set "avg_length"
                  (PFloat (Qred (inject_Z (Z.of_nat (list_sum lengths)) / inject_Z (Z.of_nat n)))) st in
      let st := if Nat.ltb n 1000 then
                  let c := counter (map str_of arr) in
                  let mc := most_common_n 5 c in
                  let st := match mc with
                            | [] => st
                            | _ => dict_set "most_common" (PList (map common_entry mc)) st
                            end in
                  if Nat.ltb 5 (length c)
                  then dict_set "least_common"
                         (PList (map common_entry (slice_last5_rev (most_common_all c)))) st
                  else st
                else st in
      if Nat.ltb 5 n then
        let '(idx, s') :=
          if Nat.ltb 3 n then
            let '(extra, s') := rsample s (seq 1 (n - 2)%nat) (Nat.min 3 (n - 2)%nat) in
            ([0%nat; (n - 1)%nat] ++ extra, s')
          else ([0%nat; (n - 1)%nat], s) in
        (dict_set "examples" (PList (map (fun i => nth i arr PNone) idx)) st, s')
      else (st, s)
    else (st, s)
  end.


(** [_compute_value_stats(key, value, parent_obj)]; [parent_obj] is always
    the dict being analysed.  The [isinstance(value, (int, float))] test comes
    first, and [bool] is a subclass of [int]. *)
Definition compute_value_stats (key : string) (value : py)
    (parent_obj : list (string * py)) : list (string * py) :=
  let st := [("type", PStr (type_name value))] in
  if is_int_or_float value then
    let st := dict_set "value" value st in
    match parent_obj with
    | [] => st
    | _ :: _ =>
      match dict_get key parent_obj with
      | Some v => dict_set "max" (py_max [v]) (dict_set "min" (py_min [v]) st)
      | None => st
      end
    end
  else if is_str value then
    let n := String.length (str_of value) in
    let st := dict_set "length" (PInt (Z.of_nat n)) st in
    if Nat.ltb 50 n
    then dict_set "preview" (PStr (substring 0 50 (str_of value) ++ "...")%string) st
    else dict_set "preview" value st
  else if isinstance value TBool then dict_set "value" value st
  else match value with
       | PNone => dict_set "value" (PStr "null") st
       | _ => st
       end.

(** [_get_examples(value)] *)
Definition get_examples (value : py) : py :=
  match value with
  | PNone | PBool _ | PInt _ | PFloat _ | PSqrt _ | PStr _ => PList [value]
  | PList l =>
    if Nat.leb (length l) 3 then value
    else PList [nth 0 l PNone; nth (Nat.div (length l) 2) l PNone; last l PNone]
  | PDict d =>
    if Nat.leb (length d) 3 then PList (map (fun kv => PTuple [PStr (fst kv); snd kv]) d)
    else PList (map (fun kv => PTuple [PStr (fst kv); snd kv]) (firstn 3 d))
  | PTuple _ => PList []
  end.

(** [element_type] of an array property. *)
Definition element_type (l : list py) : string :=
  match l with
  | a0 :: _ => if forallb (fun x => isinstance x (type_of a0)) l then type_name a0 else "mixed"
  | [] => "mixed"
  end.

(** The loop [for key, value in obj.items(): schema[key] = ...] of
    [_analyze_object], with the schema [acc] built so far. *)
Fixpoint entries_loop (f : string -> py -> R -> py * R) (d acc : list (string * py)) (s : R)
    : list (string * py) * R :=
  match d with
  | [] => (acc, s)
  | (key, value) :: rest =>
    let '(entry, s1) := f key value s in
    entries_loop f rest (dict_set key entry acc) s1
  end.

(** The body of that loop for one item [key, value] of the dict [obj]. *)
Fixpoint analyze_value (obj : list (string * py)) (key : string) (value : py) (s : R)
    {struct value} : py * R :=
  match value with
  | PDict d' =>
    let '(p, s') := entries_loop (analyze_value d') d' [] s in
    (PDict [("type", PStr "object"); ("properties", PDict p)], s')
  | PList l =>
    let '(st, s') := compute_array_stats s l in
    let base := [("type", PStr "array"); ("element_type", PStr (element_type l));
                 ("stats", PDict st)] in
    match l with
    | PDict d0 :: _ =>
      let '(p, s'') := entries_loop (analyze_value d0) d0 [] s' in
      (PDict (dict_set "properties" (PDict p) base), s'')
    | _ => (PDict base, s')
    end
  | _ =>
    (PDict [("type", PStr (type_name value)); ("value", value);
            ("stats", PDict (compute_value_stats key value obj));
            ("examples", get_examples value)], s)
  end.

(** [_analyze_object(obj)] *)
Definition analyze_object (obj : list (string * py)) (s : R) : list (string * py) * R :=
  entries_loop (analyze_value obj) obj [] s.

(** [for key, value in item_schema.items(): if key not in combined_schema: ...] *)
Definition merge_first (combined item_schema : list (string * py)) : list (string * py) :=
  fold_left (fun c kv => if dict_has (fst kv) c then c else dict_set (fst kv) (snd kv) c)
    item_schema combined.

(** The loop over [json_data[:10]] of [analyze_json]. *)
Definition combine_sample (items : list py) (s : R) : list (string * py) * R :=
  fold_left (fun acc item =>
      let '(c, s0) := acc in
      match item with
      | PDict d => let '(sch, s1) := analyze_object d s0 in (merge_first c sch, s1)
      | _ => (c, s0)
      end) items ([], s).

(** [analyze_json(json_data)] *)
Definition analyze_json (json_data : py) (s : R) : list (string * py) * R :=
  match json_data with
  | PDict d => analyze_object d s
  | PList ((_ :: _) as l) =>
    let '(c, s1) := combine_sample (firstn 10 l) s in
    let '(st, s2) := compute_array_stats s1 l in
    (dict_set "__array_stats" (PDict st) c, s2)
  | _ => ([], s)
  end.

(** The schemas [_analyze_object] gives the dict elements of [items], one
    after the other (the state of [random] passing from one to the next). *)
Fixpoint element_schemas (items : list py) (s : R) : list (list (string * py)) :=
  match items with
  | [] => []
  | PDict d :: rest => let '(sch, s1) := analyze_object d s in sch :: element_schemas rest s1
  | _ :: rest => element_schemas rest s
  end.

End Analyzer.

(** The entry for key [k] in the first schema of [schs] that has one. *)
Fixpoint first_def (k : string) (schs : list (list (string * py))) : option py :=
  match schs with
  | [] => None
  | sch :: rest => match dict_get k sch with Some v => Some v | None => first_def k rest end
  end.

Arguments compute_array_stats {R} rsample s arr.
Arguments entries_loop {R} f d acc s.
Arguments analyze_value {R} rsample obj key value s.
Arguments analyze_object {R} rsample obj s.
Arguments combine_sample {R} rsample items s.
Arguments analyze_json {R} rsample json_data s.
Arguments element_schemas {R} rsample items s.

(** A deterministic stand-in for [random.sample], used to run the analyzer on
    examples: it returns the first [k] elements of the population. *)
Definition first_sample (s : unit) (pop : list nat) (k : nat) : list nat * unit :=
  (firstn k pop, s).

(** ** The schema tree and path addressing *)

(** A [QTreeWidgetItem]: its column-0 text, the schema it was built from (none
    for the synthetic "Count" and "elements" rows) and its children.  Only
    column 0 takes part in path addressing. *)
Inductive titem : Type :=
| Item (label : string) (sch : option py) (children : list titem).

Fixpoint dict_get_with {B} (f : py -> B) (k : string) (d : list (string * py)) : option B :=
  match d with
  | [] => None
  | (k', v) :: r => if String.eqb k k' then Some (f v) else dict_get_with f k r
  end.

Definition py_is_str (s : string) (v : py) : bool :=
  match v with PStr s' => String.eqb s s' | _ => false end.

(** [_add_schema_item(parent, key, schema)].  [schema['properties']] is
    always a dict in the analyzer's output; anything else gives no rows. *)
Fixpoint add_schema_item (key : string) (schema : py) {struct schema} : titem :=
  match schema with
  | PDict d =>
    match dict_get "type" d with
    | Some item_type =>
      let props := dict_get_with
                     (fun p => match p with
                               | PDict pd => map (fun '(k, v) => add_schema_item k v) pd
                               | _ => []
                               end) "properties" d in
      let props := match props with Some ks => ks | None => [] end in
      let kids :=
        if py_is_str "object" item_type then props
        else if py_is_str "array" item_type && dict_has "element_type" d
        then [Item "elements" None props]
        else [] in
      Item key (Some schema) kids
    | None => Item key (Some schema) []
    end
  | _ => Item key (Some schema) []
  end.

(** [update_schema_tree()]: the top-level rows for [schema_info]. *)
Definition update_schema_tree (info : list (string * py)) : list titem :=
  match info with
  | [] => []
  | _ :: _ =>
    if dict_has "__array_stats" info then
      [Item "[Root]" (Some (PDict info))
         (Item "Count" None []
            :: map (fun '(k, v) => add_schema_item k v)
                   (filter (fun kv => negb (String.eqb (fst kv) "__array_stats")) info))]
    else
      [Item "[Root]" (Some (PDict info)) (map (fun '(k, v) => add_schema_item k v) info)]
  end.

(** Every row of a tree, with the column-0 texts from the top row down to it. *)
Fixpoint item_nodes (above : list string) (t : titem) : list (list string * option py) :=
  match t with
  | Item lbl sch kids =>
    (above ++ [lbl], sch) :: flat_map (item_nodes (above ++ [lbl])) kids
  end.

Definition tree_nodes (ts : list titem) : list (list string * option py) :=
  flat_map (item_nodes []) ts.

(** [_get_item_path(item)] on the row reached through the texts [chain]. *)
Definition get_item_path (chain : list string) : list string :=
  filter (fun t => negb (String.eqb t "[Root]") && negb (String.eqb t "elements")) chain.

Fixpoint str_contains (p s : string) : bool :=
  String.prefix p s || match s with EmptyString => false | String _ r => str_contains p r end.

(** [k in v]: key test on a dict, substring test on a str, membership on a
    list or tuple, [TypeError] ([None]) on anything else. *)
Definition py_in (k : string) (v : py) : option bool :=
  match v with
  | PDict d => Some (dict_has k d)
  | PStr s => Some (str_contains k s)
  | PList l | PTuple l => Some (existsb (py_is_str k) l)
  | _ => None
  end.

(** The outcome of [_get_schema_at_path]: a schema, [None], or an exception. *)
Inductive lookup_result := LFound (v : py) | LNone | LRaise.

(** The loop [for i, segment in enumerate(path)] of [_get_schema_at_path]. *)
Fixpoint resolve_loop (i : nat) (path : list string) (schema : py) : lookup_result :=
  match path with
  | [] => LFound schema
  | segment :: rest =>
    match py_in "__array_stats" schema with
    | None => LRaise
    | Some has_stats =>
      if has_stats && Nat.eqb i 0 then resolve_loop (S i) rest schema
      else
        match schema with
        | PDict d =>
          match dict_get segment d with
          | Some v => resolve_loop (S i) rest v
          | None =>
            match dict_get "properties" d with
            | Some props =>
              match py_in segment props with
              | None => LRaise
              | Some true =>
                match props with
                | PDict pd =>
                  match dict_get segment pd with
                  | Some v => resolve_loop (S i) rest v
                  | None => LRaise
                  end
                | _ => LRaise
                end
              (* the array elif tests [segment in schema['properties']] again *)
              | Some false => LNone
              end
            | None => LNone
            end
          end
        | _ => LNone
        end
    end
  end.

(** [_get_schema_at_path(path)] with [self.schema_info = info]. *)
Definition get_schema_at_path (info : list (string * py)) (path : list string) : lookup_result :=
  match path with
  | [] => LFound (PDict info)
  | _ => resolve_loop 0 path (PDict info)
  end.

(** ** Visibility filtering *)

Definition path_eqb (p q : list string) : bool :=
  (Nat.eqb (length p) (length q)) && forallb (fun '(a, b) => String.eqb a b) (combine p q).

(** [key_path in self.hidden_paths] *)
Definition path_mem (p : list string) (hidden : list (list string)) : bool :=
  existsb (path_eqb p) hidden.

(** The loop [for key, value in data.items()] of [_filter_recursive], with
    the dict [res] built so far; [f] is the recursive call. *)
Fixpoint filter_items (hidden : list (list string)) (current_path : list string)
    (f : py -> list string -> py) (d res : list (string * py)) : list (string * py) :=
  match d with
  | [] => res
  | (key, value) :: r =>
    let key_path := current_path ++ [key] in
    if path_mem key_path hidden then filter_items hidden current_path f r res
    else filter_items hidden current_path f r (dict_set key (f value key_path) res)
  end.

(** [_filter_recursive(data, current_path)] *)
Fixpoint filter_recursive (hidden : list (list string)) (data : py) (current_path : list string)
    {struct data} : py :=
  match data with
  | PDict d => PDict (filter_items hidden current_path (filter_recursive hidden) d [])
  | PList l => PList (map (fun item => filter_recursive hidden item current_path) l)
  | _ => data
  end.

(** [filter_json_by_visibility(json_data)] with [self.hidden_paths = hidden]. *)
Definition filter_json_by_visibility (hidden : list (list string)) (json_data : py) : py :=
  match hidden with
  | [] => json_data
  | _ :: _ => filter_recursive hidden json_data []
  end.


(** ** [ChatWidget._fix_jq_syntax] *)

(** Strings are byte strings of ASCII text; [\w] is [[A-Za-z0-9_]] and [\s]
    the ASCII characters for which [str.isspace()] holds. *)
Definition is_word (c : ascii) : bool :=
  let n := nat_of_ascii c in
  (Nat.leb 48 n && Nat.leb n 57) || (Nat.leb 65 n && Nat.leb n 90)
  || (Nat.leb 97 n && Nat.leb n 122) || Nat.eqb n 95.

Definition is_space (c : ascii) : bool :=
  let n := nat_of_ascii c in
  Nat.eqb n 32 || (Nat.leb 9 n && Nat.leb n 13) || (Nat.leb 28 n && Nat.leb n 31).

(** The class [[\.\w+]] *)
Definition is_fchar (c : ascii) : bool :=
  Ascii.eqb c "." || is_word c || Ascii.eqb c "+".

Fixpoint strip_prefix (p s : string) : option string :=
  match p, s with
  | EmptyString, _ => Some s
  | String a p', String b s' => if Ascii.eqb a b then strip_prefix p' s' else None
  | String _ _, EmptyString => None
  end.

Fixpoint skip_ws (s : string) : string :=
  match s with
  | String c r => if is_space c then skip_ws r else s
  | EmptyString => s
  end.

(** [\s+] (greedy; what follows it never starts with a space) *)
Definition ws1 (s : string) : option string :=
  match s with
  | String c r => if is_space c then Some (skip_ws r) else None
  | EmptyString => None
  end.

Fixpoint take_fchars (s : string) : string :=
  match s with
  | String c r => if is_fchar c then String c (take_fchars r) else EmptyString
  | EmptyString => EmptyString
  end.

(** The group [(\.\w+[\.\w+]* )] at the end of a pattern: greedy, so a dot,
    a word character and the longest run of [[\.\w+]] characters after it. *)
Definition field_group (s : string) : option string :=
  match s with
  | String d (String c r) =>
    if Ascii.eqb d "." && is_word c then Some (String d (String c (take_fchars r))) else None
  | _ => None
  end.

(** [\b] after the word character [r] of [-r]. *)
Definition word_boundary_after (s : string) : bool :=
  match s with String c _ => negb (is_word c) | EmptyString => true end.

Definition opt_bind {A B} (o : option A) (f : A -> option B) : option B :=
  match o with Some a => f a | None => None end.

Notation "x <- o ; k" := (opt_bind o (fun x => k)) (at level 61, o at next level, right associativity).

(** The part [sort\s+] shared by the four patterns. *)
Definition match_sort_ws (t : string) : option string :=
  t1 <- strip_prefix "sort" t ; ws1 t1.

(** [sort\s+-r\s+--key=(\.\w+[\.\w+]* )] anchored at the start of [t] *)
Definition match_sort_r_key (t : string) : option string :=
  t1 <- match_sort_ws t ; t2 <- strip_prefix "-r" t1 ; t3 <- ws1 t2 ;
  t4 <- strip_prefix "--key=" t3 ; field_group t4.

(** [sort\s+--key=(\.\w+[\.\w+]* )] *)
Definition match_sort_key (t : string) : option string :=
  t1 <- match_sort_ws t ; t2 <- strip_prefix "--key=" t1 ; field_group t2.

(** [sort\s+-r\b] *)
Definition match_sort_r (t : string) : option string :=
  t1 <- match_sort_ws t ; t2 <- strip_prefix "-r" t1 ;
  if word_boundary_after t2 then Some EmptyString else None.

(** [sort\s+-r\s+(\.\w+[\.\w+]* )] *)
Definition match_sort_r_field (t : string) : option string :=
  t1 <- match_sort_ws t ; t2 <- strip_prefix "-r" t1 ; t3 <- ws1 t2 ; field_group t3.

(** [re.search]: the leftmost position where the pattern matches. *)
Fixpoint re_search (m : string -> option string) (t : string) : option string :=
  match m t with
  | Some g => Some g
  | None => match t with EmptyString => None | String _ r => re_search m r end
  end.

(** [s.replace(old, new)] for a non-empty [old]: left to right, non-overlapping;
    [skip] counts the characters of a replaced occurrence still to drop. *)
Fixpoint replace_from (old new : string) (skip : nat) (s : string) : string :=
  match s with
  | EmptyString => EmptyString
  | String c r =>
    match skip with
    | S k => replace_from old new k r
    | O => if String.prefix old s
           then (new ++ replace_from old new (String.length old - 1) r)%string
           else String c (replace_from old new 0 r)
    end
  end.

Definition py_replace (old new s : string) : string := replace_from old new 0 s.

Definition fix_jq_syntax (query : string) : string :=
  let query :=
    if str_contains "--key=" query then
      match re_search match_sort_r_key query with
      | Some field =>
        py_replace ("sort -r --key=" ++ field) ("sort_by(" ++ field ++ ") | reverse") query
      | None =>
        match re_search match_sort_key query with
        | Some field => py_replace ("sort --key=" ++ field) ("sort_by(" ++ field ++ ")") query
        | None => query
        end
      end%string
    else query in
  match re_search match_sort_r query with
  | Some _ =>
    match re_search match_sort_r_field query with
    | Some field =>
      py_replace ("sort -r " ++ field)%string ("sort_by(" ++ field ++ ") | reverse")%string query
    | None => py_replace "sort -r" "sort | reverse" query
    end
  | None => query
  end.


(** ** [JsonViewerWindow]: the document and the hidden-path set *)

Record window := {
  current_json_file : option string;
  json_content : option string;
  parsed_json : option py;
  hidden_paths : list (list string);
  schema_data : option py
}.

(** Outcome of the [jq] subprocess. *)
Inductive jq_outcome :=
| JqExit0 (stdout : string)
| JqExitFail (stderr : string)
| JqRaised.

(** What the user or the desktop does to the window. *)
Inductive event :=
| EvToggle (path : list string) (is_visible : bool)
| EvLoad (file_path : string) (read : option string)
| EvRunQuery (query : string) (result : jq_outcome)
| EvEscape.

Section Window.

(** [json.loads] *)
Variable json_loads : string -> option py.

Definition set_hidden (w : window) (h : list (list string)) : window :=
  {| current_json_file := current_json_file w; json_content := json_content w;
     parsed_json := parsed_json w; hidden_paths := h; schema_data := schema_data w |}.

(** [set.add] and [set.discard] on the hidden-path set. *)
Definition set_add (p : list string) (h : list (list string)) : list (list string) :=
  if path_mem p h then h else h ++ [p].

Definition set_discard (p : list string) (h : list (list string)) : list (list string) :=
  filter (fun q => negb (path_eqb p q)) h.

(** [toggle_attribute_visibility(path, is_visible)] *)
Definition toggle_attribute_visibility (w : window) (path : list string) (is_visible : bool) : window :=
  set_hidden w (if is_visible then set_discard path (hidden_paths w) else set_add path (hidden_paths w)).

(** [load_json_file(file_path)]; [read] is the file text, or [None] when
    opening or reading raised. *)
Definition load_json_file (w : window) (file_path : string) (read : option string) : window :=
  match read with
  | None =>
    {| current_json_file := None; json_content := None; parsed_json := None;
       hidden_paths := hidden_paths w; schema_data := schema_data w |}
  | Some text =>
    match json_loads text with
    | Some v =>
      {| current_json_file := Some file_path; json_content := Some text; parsed_json := Some v;
         hidden_paths := []; schema_data := Some v |}
    | None =>
      {| current_json_file := None; json_content := None; parsed_json := None;
         hidden_paths := []; schema_data := schema_data w |}
    end
  end.

(** [reset_to_original_json()] *)
Definition reset_to_original_json (w : window) : window :=
  match json_content w with
  | Some text =>
    match text with
    | EmptyString => w
    | _ =>
      match json_loads text with
      | Some v =>
        {| current_json_file := current_json_file w; json_content := json_content w;
           parsed_json := Some v; hidden_paths := hidden_paths w; schema_data := schema_data w |}
      | None => w
      end
    end
  | None => w
  end.

(** [run_jq_query()]; the query text is taken as already stripped. *)
Definition run_jq_query (w : window) (query : string) (result : jq_outcome) : window :=
  match current_json_file w with
  | None => w
  | Some _ =>
    match query with
    | EmptyString => reset_to_original_json w
    | _ =>
      match result with
      | JqExit0 out =>
        match json_loads out with
        | Some output_json =>
          {| current_json_file := current_json_file w; json_content := json_content w;
             parsed_json := parsed_json w; hidden_paths := hidden_paths w;
             schema_data := Some output_json |}
        | None => w
        end
      | _ => w
      end
    end
  end.

(** The Escape key of [JqQueryInput]. *)
Definition escape_key (w : window) : window :=
  match current_json_file w with Some _ => reset_to_original_json w | None => w end.

Definition window_step (w : window) (e : event) : window :=
  match e with
  | EvToggle p vis => toggle_attribute_visibility w p vis
  | EvLoad f r => load_json_file w f r
  | EvRunQuery q r => run_jq_query w q r
  | EvEscape => escape_key w
  end.

End Window.

(** ** Predicates on values used by the statements *)

(** A JSON scalar: null, a boolean, a number or a string. *)
Definition is_json_scalar (v : py) : bool :=
  match v with PNone | PBool _ | PInt _ | PFloat _ | PStr _ => true | _ => false end.

(** [random.sample] as a state machine on [nat]: at state [s] it draws the
    [k] elements of the population that follow the first [s] ones. *)
Definition shifting_sample (s : nat) (pop : list nat) (k : nat) : list nat * nat :=
  (firstn k (skipn s pop), S s).

(** The order [most_common()] is claimed to follow: count descending, ties
    by first occurrence in [l] ([first_index]: [l.index(x)], [len(l)] if absent). *)
Fixpoint first_index (x : string) (l : list string) : nat :=
  match l with
  | [] => 0
  | y :: r => if String.eqb x y then 0 else S (first_index x r)
  end.

Definition common_rank (l : list string) (p q : string * nat) : Prop :=
  (snd q < snd p)%nat \/ (snd q = snd p /\ (first_index (fst p) l < first_index (fst q) l)%nat).

(** The frequency statistics claimed for the string array [strs], read off
    its stats dict [st]: a list [S] of (value, count) pairs, one per distinct
    value with its number of occurrences, ranked by [common_rank]; its first
    five are [most_common] and, when there are more than five, the last five
    in reverse order are [least_common]. *)
Definition common_values_spec (strs : list string) (st : list (string * py)) : Prop :=
  exists S : list (string * nat),
    NoDup (map fst S) /\
    (forall v, In v (map fst S) <-> In v strs) /\
    (forall p, In p S -> snd p = count_occ string_dec strs (fst p)) /\
    StronglySorted (common_rank strs) S /\
    dict_get "most_common" st = Some (PList (map common_entry (firstn 5 S))) /\
    dict_get "least_common" st
      = if Nat.ltb 5 (length S)
        then Some (PList (map common_entry (firstn 5 (rev S)))) else None.

(** One more occurrence of [x], applied to a (value, count) pair. *)
Definition bump (x : string) (p : string * nat) : string * nat :=
  if String.eqb x (fst p) then (fst p, S (snd p)) else p.

(** [_compute_array_stats(arr)] draws with [random.sample] exactly when
    [arr] has more than five items, all of them strings. *)
Definition samples (l : list py) : bool := Nat.ltb 5 (length l) && forallb is_str l.

(** No array of more than five strings occurs anywhere in the value. *)
Fixpoint no_sampling (v : py) : bool :=
  match v with
  | PList l => negb (samples l) && forallb no_sampling l
  | PDict d => forallb (fun kv => no_sampling (snd kv)) d
  | _ => true
  end.

(** [f] neither depends on nor changes the state of [random]. *)
Definition state_free {A S : Type} (f : S -> A * S) : Prop :=
  forall s s', f s = (fst (f s'), s).

(** A key whose value is an array of two dicts with different keys. *)
Definition nested_objects_doc : py :=
  PDict [("arr", PList [PDict [("x", PInt 1)]; PDict [("y", PInt 2)]])].

(** ** Paths in a value *)

(** No key occurs twice in [ks]. *)
Fixpoint keys_unique (ks : list string) : bool :=
  match ks with
  | [] => true
  | k :: r => negb (existsb (String.eqb k) r) && keys_unique r
  end.

(** Every dict in the value has distinct keys, as in the values [json.loads]
    returns. *)
Fixpoint json_keys_unique (v : py) : bool :=
  match v with
  | PDict d => keys_unique (map fst d) && forallb (fun kv => json_keys_unique (snd kv)) d
  | PList l => forallb json_keys_unique l
  | _ => true
  end.

(** Some value is reached from [v] along the keys [p], a list passing each of
    its elements on with the same remaining keys (the way
    [_filter_recursive] builds [key_path]). *)
Fixpoint has_path (p : list string) (v : py) : bool :=
  match p with
  | [] => true
  | k :: r =>
    (fix at_key (v : py) : bool :=
       match v with
       | PDict d => match dict_get k d with Some x => has_path r x | None => false end
       | PList l => existsb at_key l
       | _ => false
       end) v
  end.

(** Some non-empty prefix of [p], put after [cp], is in [hidden]. *)
Fixpoint hidden_prefix (hidden : list (list string)) (cp p : list string) : bool :=
  match p with
  | [] => false
  | k :: r => path_mem (cp ++ [k]) hidden || hidden_prefix hidden (cp ++ [k]) r
  end.

(** ** Keys the schema tree and path lookup treat specially *)

(** Metadata keys of the analyzer's schemas and the texts [_get_item_path]
    drops. *)
Definition reserved_key (k : string) : bool :=
  existsb (String.eqb k)
    ["type"; "properties"; "element_type"; "stats"; "__array_stats"; "elements"; "[Root]"].

(** No dict in the value has a reserved key. *)
Fixpoint no_reserved (v : py) : bool :=
  match v with
  | PDict d => forallb (fun kv => negb (reserved_key (fst kv)) && no_reserved (snd kv)) d
  | PList l => forallb no_reserved l
  | _ => true
  end.

(** ** The window's loaded document *)

(** The window as [__init__] leaves it. *)
Definition initial_window : window :=
  {| current_json_file := None; json_content := None; parsed_json := None;
     hidden_paths := []; schema_data := None |}.

(** Either no document is loaded, or a file is loaded and [parsed_json] is
    [json.loads] of its [json_content]. *)
Definition window_consistent (json_loads : string -> option py) (w : window) : Prop :=
  (current_json_file w = None /\ json_content w = None /\ parsed_json w = None) \/
  (exists f c v, current_json_file w = Some f /\ json_content w = Some c /\
                 json_loads c = Some v /\ parsed_json w = Some v).

(** ** The jq query input and its history *)

(** [str.strip()]: leading, then trailing whitespace removed. *)
Fixpoint lstrip_l (l : list ascii) : list ascii :=
  match l with
  | c :: r => if is_space c then lstrip_l r else l
  | [] => []
  end.

Definition py_strip (s : string) : string :=
  string_of_list_ascii (rev (lstrip_l (rev (lstrip_l (list_ascii_of_string s))))).

(** The state of a [JqQueryInput]: its [history], [history_index],
    [current_input] and the line's [text()]. *)
Record query_input := {
  history : list string;
  history_index : Z;
  current_input : string;
  line_text : string
}.

(** [JqQueryInput.__init__] (with an empty line). *)
Definition initial_query_input : query_input :=
  {| history := []; history_index := (-1)%Z; current_input := ""; line_text := "" |}.

(** [self.history[-1]] of a non-empty history. *)
Definition history_last (h : list string) : string := last h "".

(** [add_to_history(query)] on the history list. *)
Definition add_to_history (h : list string) (query : string) : list string :=
  if negb (String.eqb query "") && (match h with [] => true | _ => false end
                                    || negb (String.eqb query (history_last h))) then
    let h' := h ++ [query] in
    if Nat.ltb 50 (length h') then skipn (length h' - 50) h' else h'
  else h.

(** [navigate_history(direction)] *)
Definition navigate_history (st : query_input) (direction : Z) : query_input :=
  match history st with
  | [] => st
  | _ :: _ =>
    let cur := if Z.eqb (history_index st) (-1) then line_text st else current_input st in
    let n := Z.of_nat (length (history st)) in
    let new_index := (history_index st + direction)%Z in
    let new_index := if Z.leb n new_index then (n - 1)%Z
                     else if Z.ltb new_index (-1) then (-1)%Z else new_index in
    {| history := history st; history_index := new_index; current_input := cur;
       line_text := if Z.eqb new_index (-1) then cur
                    else nth (Z.to_nat (n - 1 - new_index)%Z) (history st) "" |}
  end.

Definition set_line_text (st : query_input) (t : string) : query_input :=
  {| history := history st; history_index := history_index st;
     current_input := current_input st; line_text := t |}.

(** The Enter branch of [keyPressEvent], on the input's own state. *)
Definition enter_key (st : query_input) : query_input :=
  let query := py_strip (line_text st) in
  let h := history st in
  let has_h := match h with [] => false | _ => true end in
  let h := if (negb (String.eqb query "") && negb has_h)
              || (has_h && negb (String.eqb query (history_last h)))
           then add_to_history h query else h in
  {| history := h; history_index := (-1)%Z; current_input := current_input st;
     line_text := line_text st |}.

Inductive key :=
| KeyUp
| KeyDown
| KeyEscape
| KeyEnter
| KeyOther (new_text : string).

(** [keyPressEvent(event)] on the input's own state; another key is the
    line edit's own editing, giving some new text. *)
Definition key_press (st : query_input) (k : key) : query_input :=
  match k with
  | KeyUp => navigate_history st 1%Z
  | KeyDown => navigate_history st (-1)%Z
  | KeyEscape => set_line_text st ""
  | KeyEnter => enter_key st
  | KeyOther t => set_line_text st t
  end.

(** A history entry: non-empty, with no whitespace at either end. *)
Definition entry_ok (e : string) : bool :=
  match list_ascii_of_string e with
  | [] => false
  | c :: r => negb (is_space c) && negb (is_space (last (c :: r) c))
  end.

(** No two neighbouring entries are equal. *)
Fixpoint no_adjacent_dup (h : list string) : bool :=
  match h with
  | a :: ((b :: _) as r) => negb (String.eqb a b) && no_adjacent_dup r
  | _ => true
  end.

(** The invariant the history keeps. *)
Definition history_ok (st : query_input) : Prop :=
  (length (history st) <= 50)%nat /\ forallb entry_ok (history st) = true /\
  no_adjacent_dup (history st) = true /\
  (-1 <= history_index st <= Z.of_nat (length (history st)) - 1)%Z.

(** ** Theorems *)

(** *** C2: a tree row's path does not resolve to its schema under a root array *)

Definition root_array_doc : py := PList [PDict [("x", PInt 1)]].

(** C2 (code_bug): for the document [[{"x": 1}]], the row "x" under "[Root]"
    carries the schema of key [x], [_get_item_path] gives [["x"]], and
    [_get_schema_at_path(["x"])] skips that first segment (the root-array
    special case) and returns the whole root schema instead. *)
Theorem get_schema_at_path_root_array_skips_key :
  let info := fst (analyze_json first_sample root_array_doc tt) in
  exists sch,
    In (["[Root]"; "x"], Some sch) (tree_nodes (update_schema_tree info)) /\
    get_item_path ["[Root]"; "x"] = ["x"] /\
    dict_get "x" info = Some sch /\
    get_schema_at_path info ["x"] = LFound (PDict info) /\
    PDict info <> sch.
Proof.
  intros info.
  exists (PDict [("type", PStr "int"); ("value", PInt 1);
            ("stats", PDict [("type", PStr "int"); ("value", PInt 1);
                             ("min", PInt 1); ("max", PInt 1)]);
            ("examples", PList [PInt 1])]).
  repeat split.
  - simpl. right. right. left. reflexivity.
  - discriminate.
Qed.

(** *** C3: structural inference is not deterministic *)

Definition seven_strings : py := PList (map PStr ["a"; "b"; "c"; "d"; "e"; "f"; "g"]).

(** C3 (counterexample): with [random.sample] drawing different valid samples
    at two states of the generator, two calls of [analyze_json] on the same
    array of seven strings return different schemas (the [examples] of the
    array statistics differ). *)
Lemma analyze_json_not_deterministic :
  ~ (forall (v : py) (s1 s2 : nat),
        fst (analyze_json shifting_sample v s1) = fst (analyze_json shifting_sample v s2)).
Proof.
  intros H. specialize (H seven_strings 0%nat 2%nat).
  vm_compute in H. discriminate H.
Qed.

(** *** C8: a scalar document gives an empty schema *)

(** C8 (counterexample): [analyze_json(5)] is the empty dict. *)
Lemma analyze_json_scalar_empty :
  ~ (forall (v : py) (s : unit), is_json_scalar v = true -> fst (analyze_json first_sample v s) <> []).
Proof.
  intros H. exact (H (PInt 5) tt eq_refl eq_refl).
Qed.

(** C8 (amended): a scalar passed to [analyze_json] gives the empty schema
    [{}]; a scalar that is the value of a key of an analysed dict gets the leaf
    schema [{type, value, stats, examples}] with [examples = [value]]. *)
Theorem analyze_scalar_root_empty_leaf_in_object :
  forall (R : Type) (rs : R -> list nat -> nat -> list nat * R) (s : R) (v : py),
    is_json_scalar v = true ->
    analyze_json rs v s = ([], s) /\
    forall (obj : list (string * py)) (key : string),
      analyze_value rs obj key v s =
        (PDict [("type", PStr (type_name v)); ("value", v);
                ("stats", PDict (compute_value_stats key v obj));
                ("examples", PList [v])], s).
Proof.
  intros R rs s v Hv. destruct v; try discriminate Hv; split; reflexivity.
Qed.

Lemma analyze_scalar_root_empty_leaf_in_object_witness :
  is_json_scalar (PStr "hi") = true /\
  analyze_json first_sample (PStr "hi") tt = ([], tt).
Proof.
  split; [reflexivity|].
  apply (analyze_scalar_root_empty_leaf_in_object unit first_sample tt (PStr "hi")).
  reflexivity.
Defined.

(** *** C9: the hidden-path set across loads and queries *)

Definition one_hidden_window : window :=
  {| current_json_file := Some "data.json"; json_content := Some "[1]";
     parsed_json := Some (PList [PInt 1]); hidden_paths := [["a"]];
     schema_data := Some (PList [PInt 1]) |}.

Definition loads_list (t : string) : option py := Some (PList [PInt 1]).

(** C9 (counterexample): a successful query whose output is JSON leaves the
    hidden-path set as it was. *)
Lemma run_jq_query_keeps_hidden :
  hidden_paths (window_step loads_list one_hidden_window (EvRunQuery ".[]" (JqExit0 "[1]")))
    = [["a"]].
Proof. reflexivity. Qed.

(** C9 (amended): a visibility toggle adds the path to (shown: removes it
    from) the hidden-path set; loading a file that can be read clears it,
    whether or not its text parses; every other event, including a query
    whose result is shown and schema-analysed, leaves it unchanged. *)
Theorem window_step_hidden_paths :
  forall (json_loads : string -> option py) (w : window) (e : event),
    hidden_paths (window_step json_loads w e) =
      match e with
      | EvToggle p vis =>
        if vis then set_discard p (hidden_paths w) else set_add p (hidden_paths w)
      | EvLoad _ (Some _) => []
      | _ => hidden_paths w
      end.
Proof.
  intros json_loads w e.
  destruct e as [p vis | f [text|] | q [out|err|] | ]; simpl.
  - reflexivity.
  - unfold load_json_file. destruct (json_loads text); reflexivity.
  - reflexivity.
  - unfold run_jq_query. destruct (current_json_file w); [|reflexivity].
    destruct q; [|destruct (json_loads out); reflexivity].
    unfold reset_to_original_json. destruct (json_content w) as [[|c t]|]; try reflexivity.
    destruct (json_loads (String c t)); reflexivity.
  - unfold run_jq_query. destruct (current_json_file w); [|reflexivity].
    destruct q; [|reflexivity].
    unfold reset_to_original_json. destruct (json_content w) as [[|c t]|]; try reflexivity.
    destruct (json_loads (String c t)); reflexivity.
  - unfold run_jq_query. destruct (current_json_file w); [|reflexivity].
    destruct q; [|reflexivity].
    unfold reset_to_original_json. destruct (json_content w) as [[|c t]|]; try reflexivity.
    destruct (json_loads (String c t)); reflexivity.
  - unfold escape_key. destruct (current_json_file w); [|reflexivity].
    unfold reset_to_original_json. destruct (json_content w) as [[|c t]|]; try reflexivity.
    destruct (json_loads (String c t)); reflexivity.
Qed.

(** *** Statistics of numeric arrays (C5, C10) *)

(** [all(isinstance(item, type(arr[0])) for item in arr)] *)
Definition uniform (arr : list py) : bool :=
  match arr with
  | [] => true
  | a0 :: _ => forallb (fun x => isinstance x (type_of a0)) arr
  end.

(** *** No statistic leaves the float range below [2^1023] *)

Lemma half_float_range_bounds :
  0 < half_float_range /\ half_float_range < float_overflow_bound /\
  2 * (half_float_range * half_float_range) < float_overflow_bound * float_overflow_bound.
Proof. repeat split; vm_compute; reflexivity. Qed.

Lemma to_float_overflows_false :
  forall q, - half_float_range < q < half_float_range -> to_float_overflows q = false.
Proof.
  intros q Hq. destruct half_float_range_bounds as (H0 & H1 & _).
  unfold to_float_overflows.
  destruct (Qle_bool float_overflow_bound (Qabs q)) eqn:E; [|reflexivity].
  apply Qle_bool_iff in E.
  assert (Hq' : Qabs q < half_float_range) by (apply Qabs_Qlt_condition; exact Hq).
  exfalso. lra.
Qed.

Lemma in_half_float_range_iff :
  forall v, in_half_float_range v = true -> - half_float_range < num v < half_float_range.
Proof.
  intros v H. unfold in_half_float_range, qlt in H. apply negb_true_iff in H.
  apply Qabs_Qlt_condition. apply Qnot_le_lt. intro E. apply Qle_bool_iff in E. congruence.
Qed.

Lemma in_half_float_range_Forall :
  forall l, forallb in_half_float_range l = true ->
    Forall (fun x => - half_float_range < num x < half_float_range) l.
Proof.
  intros l H. apply Forall_forall. intros x Hx.
  apply in_half_float_range_iff. exact (proj1 (forallb_forall _ l) H x Hx).
Qed.

Lemma inject_Z_of_nat_S :
  forall k, inject_Z (Z.of_nat (S k)) == inject_Z (Z.of_nat k) + 1.
Proof. intros k. rewrite Nat2Z.inj_succ. unfold Z.succ. rewrite inject_Z_plus. reflexivity. Qed.

Lemma inject_Z_of_nat_nonneg : forall k, 0 <= inject_Z (Z.of_nat k).
Proof. intros k. change 0 with (inject_Z 0). rewrite <- Zle_Qle. lia. Qed.

Lemma fold_sum_le :
  forall (f : py -> Q) (C : Q) l, Forall (fun x => f x <= C) l ->
    fold_right (fun x acc => f x + acc) 0 l <= inject_Z (Z.of_nat (length l)) * C.
Proof.
  intros f C l H. induction H as [|x l Hx Hl IH]; cbn [fold_right length].
  - change (inject_Z (Z.of_nat 0)) with 0. lra.
  - rewrite inject_Z_of_nat_S, Qmult_plus_distr_l. lra.
Qed.

Lemma fold_sum_ge :
  forall (f : py -> Q) (C : Q) l, Forall (fun x => C <= f x) l ->
    inject_Z (Z.of_nat (length l)) * C <= fold_right (fun x acc => f x + acc) 0 l.
Proof.
  intros f C l H. induction H as [|x l Hx Hl IH]; cbn [fold_right length].
  - change (inject_Z (Z.of_nat 0)) with 0. lra.
  - rewrite inject_Z_of_nat_S, Qmult_plus_distr_l. lra.
Qed.

Lemma mean_in_range :
  forall l, l <> [] -> forallb in_half_float_range l = true ->
    - half_float_range < qsum l / inject_Z (Z.of_nat (length l)) < half_float_range.
Proof.
  intros [|x r] Hne Hl; [congruence|].
  apply in_half_float_range_Forall in Hl. inversion Hl as [|x' r' Hx Hr]; subst x' r'.
  destruct half_float_range_bounds as (H0 & _ & _).
  pose proof (fold_sum_le num half_float_range r
                (Forall_impl _ (fun y Hy => Qlt_le_weak _ _ (proj2 Hy)) Hr)) as U.
  pose proof (fold_sum_ge num (- half_float_range) r
                (Forall_impl _ (fun y Hy => Qlt_le_weak _ _ (proj1 Hy)) Hr)) as L.
  pose proof (inject_Z_of_nat_nonneg (length r)) as HN0.
  unfold qsum. cbn [fold_right length]. rewrite inject_Z_of_nat_S.
  destruct Hx as [Hx1 Hx2].
  split.
  - apply Qlt_shift_div_l; [lra|]. lra.
  - apply Qlt_shift_div_r; [lra|]. lra.
Qed.

Lemma mean_raises_false :
  forall l, l <> [] -> forallb in_half_float_range l = true -> mean_raises l = false.
Proof.
  intros l Hne Hl. pose proof (mean_in_range l Hne Hl) as Hm.
  assert (Hr : - half_float_range < Qred (qsum l / inject_Z (Z.of_nat (length l)))
               < half_float_range) by (rewrite Qred_correct; exact Hm).
  unfold mean_raises, stat_mean.
  destruct (existsb (fun x => isinstance x TFloat) l);
    [apply to_float_overflows_false; exact Hr|].
  destruct (Z.eqb _ 1); [reflexivity | apply to_float_overflows_false; exact Hr].
Qed.

Lemma insert_asc_in : forall x y l, In x (insert_asc y l) -> x = y \/ In x l.
Proof.
  intros x y l. induction l as [|z l IH]; simpl; [intuition congruence|].
  destruct (qlt (num y) (num z)); simpl; [intuition congruence|].
  intros [H|H]; [right; left; exact H|].
  destruct (IH H); [left | right; right]; assumption.
Qed.

Lemma insert_asc_length : forall y l, length (insert_asc y l) = S (length l).
Proof.
  intros y l. induction l as [|z l IH]; simpl; [reflexivity|].
  destruct (qlt (num y) (num z)); simpl; congruence.
Qed.

Lemma sort_asc_props :
  forall l, length (sort_asc l) = length l /\ (forall x, In x (sort_asc l) -> In x l).
Proof.
  intros l. unfold sort_asc.
  assert (G : forall acc,
    length (fold_left (fun acc x => insert_asc x acc) l acc) = (length acc + length l)%nat /\
    forall x, In x (fold_left (fun acc x => insert_asc x acc) l acc) -> In x acc \/ In x l).
  { induction l as [|y l IH]; intros acc; simpl.
    - split; [lia | tauto].
    - destruct (IH (insert_asc y acc)) as [H1 H2]. split.
      + rewrite H1, insert_asc_length. lia.
      + intros x Hx. destruct (H2 x Hx) as [H|H].
        * apply insert_asc_in in H as [H|H]; [right; left; auto | left; auto].
        * right; right; auto. }
  destruct (G []) as [H1 H2]. split; [rewrite H1; reflexivity|].
  intros x Hx. destruct (H2 x Hx) as [[]|H]. exact H.
Qed.

Lemma median_raises_false :
  forall l, l <> [] -> forallb in_half_float_range l = true -> median_raises l = false.
Proof.
  intros l Hne Hl. apply in_half_float_range_Forall in Hl.
  pose proof (sort_asc_props l) as [Hlen Hin].
  destruct half_float_range_bounds as (H0 & _ & _).
  assert (Hb : forall i, - half_float_range < num (nth i (sort_asc l) PNone) < half_float_range).
  { intros i. destruct (nth_in_or_default i (sort_asc l) PNone) as [H|H].
    - exact (proj1 (Forall_forall _ l) Hl _ (Hin _ H)).
    - rewrite H. cbn [num]. split; lra. }
  unfold median_raises. cbv zeta. rewrite Hlen.
  destruct (Nat.eqb (length l) 0) eqn:E0;
    [destruct l; [congruence | discriminate E0]|].
  destruct (Nat.odd (length l)); [reflexivity|].
  pose proof (Hb (Nat.div (length l) 2 - 1)%nat) as Ha.
  pose proof (Hb (Nat.div (length l) 2)) as Hb2.
  destruct (_ || _).
  - rewrite !to_float_overflows_false by assumption.
    rewrite !andb_false_r. reflexivity.
  - apply to_float_overflows_false. destruct Ha, Hb2. split; [apply Qlt_shift_div_l | apply Qlt_shift_div_r]; lra.
Qed.

Lemma sum_sq_dev_expand :
  forall (c : Q) l,
    fold_right (fun x acc => (num x - c) * (num x - c) + acc) 0 l ==
    fold_right (fun x acc => num x * num x + acc) 0 l - 2 * c * qsum l
    + inject_Z (Z.of_nat (length l)) * c * c.
Proof.
  intros c l. unfold qsum. induction l as [|x l IH]; cbn [fold_right length].
  - change (inject_Z (Z.of_nat 0)) with 0. ring.
  - rewrite inject_Z_of_nat_S, IH. ring.
Qed.

Lemma sample_variance_in_range :
  forall l, (2 <= length l)%nat -> forallb in_half_float_range l = true ->
    sample_variance l <= 2 * (half_float_range * half_float_range).
Proof.
  intros l Hlen Hl. apply in_half_float_range_Forall in Hl.
  destruct half_float_range_bounds as (H0 & _ & _).
  assert (HK : inject_Z (Z.of_nat (length l)) == inject_Z (Z.of_nat (length l - 1)) + 1).
  { replace (length l) with (S (length l - 1)) at 1 by lia. apply inject_Z_of_nat_S. }
  assert (HK1 : 1 <= inject_Z (Z.of_nat (length l - 1))).
  { change 1 with (inject_Z 1). rewrite <- Zle_Qle. lia. }
  assert (HSQ : fold_right (fun x acc => num x * num x + acc) 0 l
                <= inject_Z (Z.of_nat (length l)) * (half_float_range * half_float_range)).
  { apply (fold_sum_le (fun x => num x * num x)).
    eapply Forall_impl; [|exact Hl]. intros y [Hy1 Hy2]. cbv beta. nra. }
  assert (Hss : sum_sq_dev l ==
                fold_right (fun x acc => num x * num x + acc) 0 l
                - qsum l * qsum l / inject_Z (Z.of_nat (length l))).
  { unfold sum_sq_dev. cbv zeta. rewrite sum_sq_dev_expand. field.
    intro E. rewrite E in HK. lra. }
  assert (Hpos : 0 <= qsum l * qsum l / inject_Z (Z.of_nat (length l))).
  { unfold Qdiv. apply Qmult_le_0_compat; [nra | apply Qinv_le_0_compat; lra]. }
  assert (HBB : 0 <= (inject_Z (Z.of_nat (length l - 1)) - 1)
                     * (half_float_range * half_float_range)).
  { apply Qmult_le_0_compat; nra. }
  unfold sample_variance. rewrite Qred_correct.
  apply Qle_shift_div_r; [lra|]. rewrite Hss. rewrite HK in HSQ. nra.
Qed.

Lemma stdev_raises_false :
  forall l, (2 <= length l)%nat -> forallb in_half_float_range l = true -> stdev_raises l = false.
Proof.
  intros l Hlen Hl. unfold stdev_raises.
  replace (Nat.ltb (length l) 2) with false by (symmetry; apply Nat.ltb_ge; exact Hlen).
  destruct (Qle_bool _ _) eqn:E; [|reflexivity].
  apply Qle_bool_iff in E. pose proof (sample_variance_in_range l Hlen Hl).
  destruct half_float_range_bounds as (_ & _ & H3). lra.
Qed.

Lemma statistics_in_range :
  forall l, l <> [] -> forallb in_half_float_range l = true ->
    statistics_mean l = Some (stat_mean l) /\
    statistics_median l = Some (stat_median l) /\
    ((1 < length l)%nat -> statistics_stdev l = Some (stat_stdev l)).
Proof.
  intros l Hne Hl. unfold statistics_mean, statistics_median, statistics_stdev.
  rewrite mean_raises_false, median_raises_false by assumption.
  split; [reflexivity | split; [reflexivity|]].
  intros H. rewrite stdev_raises_false by (assumption || lia). reflexivity.
Qed.

Lemma numeric_array_stats :
  forall (R : Type) (rs : R -> list nat -> nat -> list nat * R) (s : R) (arr : list py),
    arr <> [] -> uniform arr = true -> forallb is_int_or_float arr = true ->
    forallb in_half_float_range arr = true ->
    let n := length arr in
    let '(st, s') := compute_array_stats rs s arr in
    s' = s /\
    dict_get "count" st = Some (PInt (Z.of_nat n)) /\
    dict_get "uniform_type" st = Some (PBool true) /\
    dict_get "min" st = Some (py_min arr) /\
    dict_get "max" st = Some (py_max arr) /\
    dict_get "mean" st = Some (stat_mean arr) /\
    dict_get "median" st = (if Nat.ltb 1 n then Some (stat_median arr) else None) /\
    dict_get "stdev" st = (if Nat.ltb 1 n then Some (PSqrt (sample_variance arr)) else None).
Proof.
  intros R rs s arr Hne Hu Hn Hr.
  destruct (statistics_in_range arr Hne Hr) as (Em & Ed & Es).
  destruct arr as [|a0 rest]; [congruence|].
  unfold uniform in Hu.
  unfold compute_array_stats. cbv zeta.
  rewrite Hu, Hn. simpl andb. cbv iota.
  rewrite Em.
  destruct (Nat.ltb 1 (length (a0 :: rest))) eqn:E1.
  - rewrite Ed, (Es (proj1 (Nat.ltb_lt _ _) E1)).
    destruct (Nat.ltb 5 (length (a0 :: rest)));
      try destruct (Nat.ltb 0 _ && Nat.ltb _ _);
      simpl; repeat split; reflexivity.
  - destruct (Nat.ltb 5 (length (a0 :: rest)));
      try destruct (Nat.ltb 0 _ && Nat.ltb _ _);
      simpl; repeat split; reflexivity.
Qed.




(** C10 (counterexample): the empty array has all its elements booleans,
    but its stats are only [{count: 0}], without [uniform_type]. *)
Lemma empty_bool_array_no_uniform_type :
  forallb (fun x => isinstance x TBool) [] = true /\
  dict_get "uniform_type" (fst (compute_array_stats first_sample tt (map PBool []))) = None.
Proof. split; reflexivity. Qed.

Lemma forallb_map_bool_int_or_float :
  forall bs, forallb is_int_or_float (map PBool bs) = true.
Proof. induction bs; simpl; auto. Qed.

Lemma forallb_map_bool_in_range :
  forall bs, forallb in_half_float_range (map PBool bs) = true.
Proof.
  induction bs as [|b bs IH]; [reflexivity|]. cbn [map forallb]. rewrite IH, andb_true_r.
  destruct b; vm_compute; reflexivity.
Qed.

Lemma uniform_map_bool : forall bs, uniform (map PBool bs) = true.
Proof.
  intros [|b bs]; [reflexivity|]. simpl. induction bs; simpl; auto.
Qed.

(** C10 (amended): for every non-empty array of booleans, [uniform_type] is
    True and the numeric branch applies: [min], [max], [mean] over the
    booleans as 0/1, and [median] and [stdev] when [count > 1]; a boolean
    value of a dict gets [stats['value']] from the numeric branch of
    [_compute_value_stats], and the later [isinstance(value, bool)] branch is
    never reached: every [bool] already passes the [(int, float)] test. *)
Theorem booleans_take_numeric_branch :
  (forall (R : Type) (rs : R -> list nat -> nat -> list nat * R) (s : R) (bs : list bool),
    bs <> [] ->
    let arr := map PBool bs in
    let n := length arr in
    let '(st, s') := compute_array_stats rs s arr in
    dict_get "uniform_type" st = Some (PBool true) /\
    dict_get "min" st = Some (py_min arr) /\
    dict_get "max" st = Some (py_max arr) /\
    dict_get "mean" st = Some (stat_mean arr) /\
    dict_get "median" st = (if Nat.ltb 1 n then Some (stat_median arr) else None) /\
    dict_get "stdev" st = (if Nat.ltb 1 n then Some (PSqrt (sample_variance arr)) else None)) /\
  (forall (key : string) (b : bool) (parent : list (string * py)),
    is_int_or_float (PBool b) = true /\
    dict_get "value" (compute_value_stats key (PBool b) parent) = Some (PBool b)) /\
  (forall v : py, isinstance v TBool = true -> is_int_or_float v = true).
Proof.
  split; [|split].
  - intros R rs s bs Hne arr n.
    assert (Hne' : arr <> []) by (destruct bs; [congruence | discriminate]).
    pose proof (numeric_array_stats R rs s arr Hne' (uniform_map_bool bs)
                  (forallb_map_bool_int_or_float bs) (forallb_map_bool_in_range bs)) as H.
    destruct (compute_array_stats rs s arr) as [st s'].
    destruct H as (_ & _ & Hut & Hmin & Hmax & Hmean & Hmed & Hsd).
    repeat split; assumption.
  - intros key b parent. split; [reflexivity|].
    unfold compute_value_stats. simpl.
    destruct parent as [|kv parent]; [reflexivity|].
    destruct (dict_get key (kv :: parent)); reflexivity.
  - intros v Hv. destruct v; try discriminate Hv; reflexivity.
Qed.

Lemma booleans_take_numeric_branch_witness :
  [true; false] <> [] /\
  dict_get "mean" (fst (compute_array_stats first_sample tt (map PBool [true; false])))
    = Some (PFloat (1 # 2)).
Proof.
  split; [discriminate|].
  pose proof (proj1 booleans_take_numeric_branch unit first_sample tt [true; false]
                ltac:(discriminate)) as H.
  vm_compute in H |- *. destruct H as (_ & _ & _ & Hmean & _). exact Hmean.
Defined.

(** ** Induction on Python values, through lists and dict items *)

Section PyInd.

Variable P : py -> Prop.
Hypothesis HNone : P PNone.
Hypothesis HBool : forall b, P (PBool b).
Hypothesis HInt : forall z, P (PInt z).
Hypothesis HFloat : forall q, P (PFloat q).
Hypothesis HSqrt : forall q, P (PSqrt q).
Hypothesis HStr : forall s, P (PStr s).
Hypothesis HList : forall l, Forall P l -> P (PList l).
Hypothesis HTuple : forall l, Forall P l -> P (PTuple l).
Hypothesis HDict : forall d, Forall (fun kv => P (snd kv)) d -> P (PDict d).

Fixpoint py_ind' (v : py) : P v :=
  match v with
  | PNone => HNone
  | PBool b => HBool b
  | PInt z => HInt z
  | PFloat q => HFloat q
  | PSqrt q => HSqrt q
  | PStr s => HStr s
  | PList l =>
    HList l ((fix go (l : list py) : Forall P l :=
                match l with
                | [] => Forall_nil _
                | x :: r => Forall_cons x (py_ind' x) (go r)
                end) l)
  | PTuple l =>
    HTuple l ((fix go (l : list py) : Forall P l :=
                 match l with
                 | [] => Forall_nil _
                 | x :: r => Forall_cons x (py_ind' x) (go r)
                 end) l)
  | PDict d =>
    HDict d ((fix go (d : list (string * py)) : Forall (fun kv => P (snd kv)) d :=
                match d with
                | [] => Forall_nil _
                | (k, x) :: r => Forall_cons (k, x) (py_ind' x) (go r)
                end) d)
  end.

End PyInd.

(** ** Dict lemmas *)

Lemma dict_has_false_not_in :
  forall k d, dict_has k d = false <-> ~ In k (map fst d).
Proof.
  intros k d. unfold dict_has. induction d as [|[k' v] r IH]; simpl.
  - split; auto.
  - destruct (String.eqb_spec k k') as [->|Hne].
    + split; [discriminate | intros H; exfalso; apply H; left; reflexivity].
    + rewrite IH. split; intros H.
      * intros [E|E]; [congruence | contradiction].
      * auto.
Qed.

Lemma dict_set_fresh :
  forall k v d, dict_has k d = false -> dict_set k v d = d ++ [(k, v)].
Proof.
  intros k v d. unfold dict_has. induction d as [|[k' v'] r IH]; simpl; [reflexivity|].
  destruct (String.eqb k k'); [discriminate|]. intros H. rewrite IH; auto.
Qed.

Lemma in_dict_set :
  forall k v d k' x, In (k', x) (dict_set k v d) -> In (k', x) d \/ (k' = k /\ x = v).
Proof.
  intros k v d. induction d as [|[k0 v0] r IH]; simpl; intros k' x H.
  - destruct H as [E|[]]. inversion E; subst. right; auto.
  - destruct (String.eqb_spec k k0) as [->|Hne]; simpl in H.
    + destruct H as [E|H]; [inversion E; subst; right; auto | left; right; exact H].
    + destruct H as [E|H]; [left; left; exact E|].
      destruct (IH k' x H) as [H'|H']; [left; right; exact H' | right; exact H'].
Qed.

Lemma keys_dict_set :
  forall k v d, map fst (dict_set k v d) = if dict_has k d then map fst d else map fst d ++ [k].
Proof.
  intros k v d. unfold dict_has. induction d as [|[k0 v0] r IH]; simpl; [reflexivity|].
  destruct (String.eqb_spec k k0) as [->|Hne]; simpl; [reflexivity|].
  rewrite IH. destruct (dict_get k r); reflexivity.
Qed.

Lemma nodup_keys_dict_set :
  forall k v d, NoDup (map fst d) -> NoDup (map fst (dict_set k v d)).
Proof.
  intros k v d Hd. rewrite keys_dict_set.
  destruct (dict_has k d) eqn:Hk; [exact Hd|].
  apply dict_has_false_not_in in Hk.
  apply NoDup_app; [exact Hd | constructor; [intros []|constructor] |].
  intros x Hx [E|[]]; subst; contradiction.
Qed.

Lemma dict_has_app :
  forall k a b, dict_has k (a ++ b) = dict_has k a || dict_has k b.
Proof.
  intros k a b. unfold dict_has. induction a as [|[k0 v0] r IH]; simpl; [reflexivity|].
  destruct (String.eqb k k0); [reflexivity | exact IH].
Qed.

(** *** C4: visibility filtering is idempotent *)

Section FilterIdem.

Variable hidden : list (list string).

(** An item of a filtered dict at [p]: its key is not hidden and its value is
    already a fixed point of the filter. *)
Definition kept_item (p : list string) (kv : string * py) : Prop :=
  path_mem (p ++ [fst kv]) hidden = false /\
  filter_recursive hidden (snd kv) (p ++ [fst kv]) = snd kv.

Lemma filter_items_kept :
  forall p d res,
    (forall k x, In (k, x) d ->
       filter_recursive hidden (filter_recursive hidden x (p ++ [k])) (p ++ [k])
       = filter_recursive hidden x (p ++ [k])) ->
    NoDup (map fst res) -> Forall (kept_item p) res ->
    NoDup (map fst (filter_items hidden p (filter_recursive hidden) d res)) /\
    Forall (kept_item p) (filter_items hidden p (filter_recursive hidden) d res).
Proof.
  intros p d. induction d as [|[k x] r IH]; intros res Hfix Hnd Hk; simpl; [auto|].
  destruct (path_mem (p ++ [k]) hidden) eqn:Hh.
  - apply IH; auto. intros k' x' Hin. apply Hfix. right; exact Hin.
  - apply IH.
    + intros k' x' Hin. apply Hfix. right; exact Hin.
    + apply nodup_keys_dict_set; exact Hnd.
    + apply Forall_forall. intros [k' x'] Hin.
      destruct (in_dict_set _ _ _ _ _ Hin) as [Hin'|[-> ->]].
      * exact (proj1 (Forall_forall _ _) Hk _ Hin').
      * split; [exact Hh|]. apply Hfix. left; reflexivity.
Qed.

Lemma filter_items_identity :
  forall p r res,
    NoDup (map fst r) -> Forall (kept_item p) r ->
    (forall k, In k (map fst r) -> dict_has k res = false) ->
    filter_items hidden p (filter_recursive hidden) r res = res ++ r.
Proof.
  intros p r. induction r as [|[k x] r IH]; intros res Hnd Hk Hfresh; simpl.
  - rewrite app_nil_r. reflexivity.
  - inversion Hk as [|? ? [Hh Hx] Hk']; subst. simpl in Hh, Hx.
    rewrite Hh, Hx.
    rewrite dict_set_fresh by (apply Hfresh; left; reflexivity).
    inversion Hnd as [|? ? Hnin Hnd']; subst.
    rewrite IH; auto.
    + rewrite <- app_assoc. reflexivity.
    + intros k' Hin. rewrite dict_has_app. rewrite (Hfresh k' (or_intror Hin)). simpl.
      unfold dict_has. simpl. destruct (String.eqb_spec k' k) as [->|]; [contradiction | reflexivity].
Qed.

Lemma filter_recursive_idem :
  forall v p, filter_recursive hidden (filter_recursive hidden v p) p = filter_recursive hidden v p.
Proof.
  induction v as [| | | | | | l IHl | l IHl | d IHd] using py_ind'; intros p; try reflexivity.
  - simpl. rewrite map_map. f_equal. apply map_ext_in. intros y Hy.
    exact (proj1 (Forall_forall _ _) IHl y Hy p).
  - simpl.
    destruct (filter_items_kept p d [])
      as [Hnd Hk]; [| constructor | constructor |].
    + intros k x Hin. exact (proj1 (Forall_forall _ _) IHd (k, x) Hin (p ++ [k])).
    + f_equal. apply filter_items_identity; auto.
Qed.

End FilterIdem.

(** C4: [filter_json_by_visibility] applied twice with the same hidden-path
    set gives the same value as applying it once. *)
Theorem filter_json_by_visibility_idempotent :
  forall (hidden : list (list string)) (v : py),
    filter_json_by_visibility hidden (filter_json_by_visibility hidden v)
    = filter_json_by_visibility hidden v.
Proof.
  intros [|h hs] v; [reflexivity|]. apply filter_recursive_idem.
Qed.

(** *** C7: the jq sort repairs *)

(** C7 (code_bug): [_fix_jq_syntax] takes the field of the first match and
    [str.replace] rewrites every [sort -r <that field>], including the start
    of a longer field: [sort -r .ab] becomes [sort_by(.a) | reverseb].  A
    second reversed sort on another field is left as it is, and a second
    [--key=] sort becomes [sort | reverse --key=.b]. *)
Theorem fix_jq_syntax_second_sort_mangled :
  fix_jq_syntax "sort -r .a | sort -r .ab" = "sort_by(.a) | reverse | sort_by(.a) | reverseb"
  /\ fix_jq_syntax "sort -r .a | sort -r .b" = "sort_by(.a) | reverse | sort -r .b"
  /\ fix_jq_syntax "sort -r --key=.a | sort -r --key=.b"
     = "sort_by(.a) | reverse | sort | reverse --key=.b".
Proof. vm_compute. repeat split. Qed.

(** *** C6: the frequency map of a string array *)

Lemma dict_get_set_eq : forall k v d, dict_get k (dict_set k v d) = Some v.
Proof.
  intros k v d. induction d as [|[k' v'] r IH]; simpl.
  - rewrite String.eqb_refl. reflexivity.
  - destruct (String.eqb k k') eqn:E; simpl; rewrite E; [reflexivity | exact IH].
Qed.

Lemma dict_get_set_neq :
  forall k k' v d, k <> k' -> dict_get k (dict_set k' v d) = dict_get k d.
Proof.
  intros k k' v d Hne. induction d as [|[j w] r IH]; simpl.
  - apply String.eqb_neq in Hne. rewrite Hne. reflexivity.
  - destruct (String.eqb_spec k' j) as [<-|Hj]; simpl.
    + apply String.eqb_neq in Hne. rewrite Hne. reflexivity.
    + destruct (String.eqb k j); [reflexivity | exact IH].
Qed.

Lemma first_index_app_in :
  forall y l m, In y l -> first_index y (l ++ m) = first_index y l.
Proof.
  intros y l m. induction l as [|a l IH]; simpl; [intros []|]. intros [->|H].
  - rewrite String.eqb_refl. reflexivity.
  - destruct (String.eqb y a); [reflexivity | rewrite (IH H); reflexivity].
Qed.

Lemma first_index_lt : forall y l, In y l -> (first_index y l < length l)%nat.
Proof.
  intros y l. induction l as [|a l IH]; simpl; [intros []|]. intros [->|H].
  - rewrite String.eqb_refl. lia.
  - destruct (String.eqb y a); [lia | specialize (IH H); lia].
Qed.

Lemma first_index_app_out :
  forall y l m, ~ In y l -> first_index y (l ++ m) = (length l + first_index y m)%nat.
Proof.
  intros y l m. induction l as [|a l IH]; simpl; intros H; [reflexivity|].
  destruct (String.eqb_spec y a) as [E|E]; [exfalso; apply H; left; congruence|].
  rewrite IH; [reflexivity | tauto].
Qed.

Lemma ss_impl_in :
  forall {A} (R R' : A -> A -> Prop) k,
    (forall a b, In a k -> In b k -> R a b -> R' a b) ->
    StronglySorted R k -> StronglySorted R' k.
Proof.
  intros A R R' k. induction k as [|a k IH]; intros Himp Hs; [constructor|].
  inversion Hs as [|? ? Hk Hf]; subst. constructor.
  - apply IH; [|exact Hk]. intros x y Hx Hy. apply Himp; right; assumption.
  - rewrite Forall_forall in *. intros y Hy. apply Himp; [left; reflexivity | right; exact Hy |].
    apply Hf, Hy.
Qed.

Lemma ss_snoc :
  forall {A} (R : A -> A -> Prop) k x,
    StronglySorted R k -> (forall a, In a k -> R a x) -> StronglySorted R (k ++ [x]).
Proof.
  intros A R k x. induction k as [|a k IH]; intros Hs Hx; simpl.
  - constructor; constructor.
  - inversion Hs as [|? ? Hk Hf]; subst. constructor.
    + apply IH; [exact Hk|]. intros b Hb. apply Hx. right. exact Hb.
    + apply Forall_app. split; [exact Hf|]. constructor; [apply Hx; left; reflexivity | constructor].
Qed.

Lemma counter_snoc : forall l x, counter (l ++ [x]) = counter_add x (counter l).
Proof. intros l x. unfold counter. rewrite fold_left_app. reflexivity. Qed.

Lemma map_bump_absent :
  forall x c, ~ In x (map fst c) -> map (bump x) c = c.
Proof.
  intros x c. induction c as [|[y n] r IH]; simpl; intros H; [reflexivity|].
  unfold bump at 1. simpl. destruct (String.eqb_spec x y) as [E|E].
  - exfalso. apply H. left. congruence.
  - rewrite IH; [reflexivity | tauto].
Qed.

Lemma counter_add_present :
  forall x c, NoDup (map fst c) -> In x (map fst c) -> counter_add x c = map (bump x) c.
Proof.
  intros x c. induction c as [|[y n] r IH]; simpl; intros Hnd H; [destruct H|].
  inversion Hnd as [|? ? Hy Hr]; subst.
  unfold bump at 1. simpl. destruct (String.eqb_spec x y) as [<-|E].
  - rewrite map_bump_absent by exact Hy. reflexivity.
  - rewrite IH; [reflexivity | exact Hr |]. destruct H as [H|H]; [congruence | exact H].
Qed.

Lemma counter_add_absent :
  forall x c, ~ In x (map fst c) -> counter_add x c = c ++ [(x, 1%nat)].
Proof.
  intros x c. induction c as [|[y n] r IH]; simpl; intros H; [reflexivity|].
  destruct (String.eqb_spec x y) as [E|E]; [exfalso; apply H; left; congruence|].
  rewrite IH; [reflexivity | tauto].
Qed.

Lemma map_fst_bump : forall x c, map fst (map (bump x) c) = map fst c.
Proof.
  intros x c. rewrite map_map. apply map_ext. intros [y n]. unfold bump. simpl.
  destruct (String.eqb x y); reflexivity.
Qed.

Lemma count_occ_single :
  forall x y, count_occ string_dec [x] y = if String.eqb x y then 1%nat else 0%nat.
Proof.
  intros x y. simpl. destruct (string_dec x y) as [<-|E].
  - rewrite String.eqb_refl. reflexivity.
  - apply String.eqb_neq in E. rewrite E. reflexivity.
Qed.

(** [Counter(l)]: its keys are the distinct items of [l], without
    repetition and in first-occurrence order, each with its number of
    occurrences. *)
Lemma counter_invariant :
  forall l,
    (forall y, In y (map fst (counter l)) <-> In y l) /\
    NoDup (map fst (counter l)) /\
    (forall p, In p (counter l) -> snd p = count_occ string_dec l (fst p)) /\
    StronglySorted (fun a b => (first_index a l < first_index b l)%nat) (map fst (counter l)).
Proof.
  induction l as [|x l IH] using rev_ind.
  - repeat split; simpl; try tauto; constructor.
  - destruct IH as [Hk [Hnd [Hc Hs]]]. rewrite counter_snoc.
    assert (Hfi : forall a b, In a (map fst (counter l)) -> In b (map fst (counter l)) ->
              (first_index a l < first_index b l)%nat ->
              (first_index a (l ++ [x]) < first_index b (l ++ [x]))%nat).
    { intros a b Ha Hb Hab. apply Hk in Ha, Hb.
      rewrite !first_index_app_in by assumption. exact Hab. }
    destruct (in_dec string_dec x l) as [Hin|Hout].
    + assert (Hx : In x (map fst (counter l))) by (apply Hk; exact Hin).
      rewrite (counter_add_present x _ Hnd Hx), map_fst_bump.
      repeat split.
      * intros Hy. apply in_or_app. left. apply Hk, Hy.
      * intros Hy. apply in_app_or in Hy as [Hy|[<-|[]]]; [apply Hk, Hy | exact Hx].
      * exact Hnd.
      * intros p Hp. apply in_map_iff in Hp as [q [<- Hq]].
        unfold bump. destruct (String.eqb x (fst q)) eqn:E; simpl;
          rewrite count_occ_app, count_occ_single, E, (Hc q Hq); lia.
      * exact (ss_impl_in _ _ _ Hfi Hs).
    + assert (Hx : ~ In x (map fst (counter l))) by (rewrite Hk; exact Hout).
      rewrite (counter_add_absent x _ Hx), map_app. simpl.
      repeat split.
      * intros Hy. apply in_app_or in Hy as [Hy|[<-|[]]].
        -- apply in_or_app. left. apply Hk, Hy.
        -- apply in_or_app. right. left. reflexivity.
      * intros Hy. apply in_app_or in Hy as [Hy|[<-|[]]].
        -- apply in_or_app. left. apply Hk, Hy.
        -- apply in_or_app. right. left. reflexivity.
      * apply NoDup_app; [exact Hnd | constructor; [intros []|constructor] |].
        intros a Ha [E|[]]. subst. contradiction.
      * intros p Hp. apply in_app_or in Hp as [Hp|[<-|[]]].
        -- rewrite count_occ_app, count_occ_single, (Hc p Hp).
           destruct (String.eqb_spec x (fst p)) as [E|E]; [|lia].
           exfalso. apply Hx. rewrite E. apply in_map. exact Hp.
        -- simpl. rewrite count_occ_app, count_occ_single, String.eqb_refl.
           rewrite (proj1 (count_occ_not_In string_dec l x) Hout). reflexivity.
      * apply ss_snoc; [exact (ss_impl_in _ _ _ Hfi Hs)|].
        intros a Ha. pose proof Ha as Ha'. apply Hk in Ha'.
        rewrite first_index_app_in by exact Ha'.
        rewrite first_index_app_out by exact Hout. simpl. rewrite String.eqb_refl.
        pose proof (first_index_lt a l Ha'). lia.
Qed.

Section SortDesc.

Variable l : list string.

Lemma insert_desc_perm : forall p acc, Permutation (insert_desc p acc) (p :: acc).
Proof.
  intros p acc. induction acc as [|q r IH]; simpl; [reflexivity|].
  destruct (Nat.leb (snd p) (snd q)); [|reflexivity].
  rewrite IH. apply perm_swap.
Qed.

Lemma insert_desc_sorted :
  forall p acc,
    StronglySorted (common_rank l) acc ->
    (forall q, In q acc -> (first_index (fst q) l < first_index (fst p) l)%nat) ->
    StronglySorted (common_rank l) (insert_desc p acc).
Proof.
  intros p acc. induction acc as [|q r IH]; intros Hs Hlt; simpl.
  - constructor; constructor.
  - inversion Hs as [|? ? Hsr Hfr]; subst. rewrite Forall_forall in Hfr.
    destruct (Nat.leb_spec (snd p) (snd q)) as [Hle|Hgt].
    + constructor.
      * apply IH; [exact Hsr|]. intros z Hz. apply Hlt. right. exact Hz.
      * apply Forall_forall. intros z Hz.
        apply (Permutation_in _ (insert_desc_perm p r)) in Hz.
        destruct Hz as [<-|Hz]; [|apply Hfr, Hz].
        unfold common_rank. destruct (Nat.eq_dec (snd p) (snd q)) as [E|E].
        -- right. split; [exact E|]. apply Hlt. left. reflexivity.
        -- left. lia.
    + constructor; [exact Hs|]. constructor.
      * left. exact Hgt.
      * apply Forall_forall. intros z Hz. specialize (Hfr z Hz).
        unfold common_rank in *. left.
        destruct Hfr as [H|[H _]]; lia.
Qed.

Lemma sort_desc_fold :
  forall c acc,
    StronglySorted (common_rank l) acc ->
    StronglySorted (fun a b => (first_index a l < first_index b l)%nat) (map fst c) ->
    (forall a b, In a acc -> In b c -> (first_index (fst a) l < first_index (fst b) l)%nat) ->
    StronglySorted (common_rank l) (fold_left (fun acc p => insert_desc p acc) c acc)
    /\ Permutation (fold_left (fun acc p => insert_desc p acc) c acc) (acc ++ c).
Proof.
  induction c as [|p c IH]; intros acc Hs Hk Hlt; simpl.
  - rewrite app_nil_r. split; [exact Hs | reflexivity].
  - simpl in Hk. inversion Hk as [|? ? Hkc Hfk]; subst. rewrite Forall_forall in Hfk.
    destruct (IH (insert_desc p acc)) as [H1 H2].
    + apply insert_desc_sorted; [exact Hs|]. intros q Hq. apply Hlt; [exact Hq | left; reflexivity].
    + exact Hkc.
    + intros a b Ha Hb. apply (Permutation_in _ (insert_desc_perm p acc)) in Ha.
      destruct Ha as [<-|Ha].
      * apply Hfk. apply in_map. exact Hb.
      * apply Hlt; [exact Ha | right; exact Hb].
    + split; [exact H1|]. rewrite H2, (insert_desc_perm p acc). simpl.
      apply Permutation_middle.
Qed.

Lemma sort_desc_spec :
  forall c,
    StronglySorted (fun a b => (first_index a l < first_index b l)%nat) (map fst c) ->
    StronglySorted (common_rank l) (sort_desc c) /\ Permutation (sort_desc c) c.
Proof.
  intros c Hk. unfold sort_desc.
  destruct (sort_desc_fold c [] (SSorted_nil _) Hk) as [H1 H2]; [intros a b []|].
  split; [exact H1 | exact H2].
Qed.

End SortDesc.

Lemma forallb_str_PStr :
  forall xs, forallb (fun y => isinstance y TStr) (map PStr xs) = true.
Proof. induction xs as [|x xs IH]; simpl; [reflexivity | exact IH]. Qed.

Lemma forallb_is_str_PStr : forall xs, forallb is_str (map PStr xs) = true.
Proof. induction xs as [|x xs IH]; simpl; [reflexivity | exact IH]. Qed.

Lemma map_str_of_PStr : forall xs, map str_of (map PStr xs) = xs.
Proof. induction xs as [|x xs IH]; simpl; [reflexivity | rewrite IH; reflexivity]. Qed.

Lemma most_common_nonempty : forall x xs, most_common_n 5 (counter (x :: xs)) <> [].
Proof.
  intros x xs E. destruct (counter_invariant (x :: xs)) as [Hk [_ [_ Hs]]].
  destruct (sort_desc_spec (x :: xs) _ Hs) as [_ Hp].
  assert (Hx : In x (map fst (counter (x :: xs)))) by (apply Hk; left; reflexivity).
  unfold most_common_n in E. destruct (sort_desc (counter (x :: xs))) as [|q r] eqn:Es.
  - apply Permutation_nil in Hp. rewrite Hp in Hx. destruct Hx.
  - discriminate E.
Qed.

(** The [most_common] and [least_common] entries of the stats of a
    non-empty string array of fewer than 1000 items. *)
Lemma string_stats_common :
  forall {R} (rs : R -> list nat -> nat -> list nat * R) s strs,
    strs <> [] -> (length strs < 1000)%nat ->
    let st := fst (compute_array_stats rs s (map PStr strs)) in
    dict_get "most_common" st
      = Some (PList (map common_entry (most_common_n 5 (counter strs)))) /\
    dict_get "least_common" st
      = if Nat.ltb 5 (length (counter strs))
        then Some (PList (map common_entry (slice_last5_rev (most_common_all (counter strs)))))
        else None.
Proof.
  intros R rs s [|x xs] Hne Hlen; [congruence|]. cbv zeta.
  unfold compute_array_stats. cbn [map forallb type_of].
  rewrite forallb_str_PStr, forallb_is_str_PStr.
  change (isinstance (PStr x) TStr) with true.
  change (is_int_or_float (PStr x)) with false.
  change (is_str (PStr x)) with true. cbn [andb].
  rewrite map_str_of_PStr. change (str_of (PStr x)) with x.
  assert (Hl : Nat.ltb (length (PStr x :: map PStr xs)) 1000 = true).
  { apply Nat.ltb_lt. simpl. rewrite length_map. exact Hlen. }
  rewrite Hl.
  destruct (most_common_n 5 (counter (x :: xs))) as [|p r] eqn:Emc;
    [exfalso; exact (most_common_nonempty x xs Emc)|].
  destruct (Nat.ltb 5 (length (PStr x :: map PStr xs))).
  1: match goal with |- context [let '(_, _) := ?e in _] => destruct e as [idx s'] end.
  all: cbn [fst]; destruct (Nat.ltb 5 (length (counter (x :: xs))));
    split; repeat rewrite dict_get_set_neq by discriminate;
    rewrite ?dict_get_set_eq; reflexivity.
Qed.

(** C6: for a non-empty array of strings with fewer than 1000 items, whatever
    the state of [random], the stats hold [most_common] and [least_common] as
    [common_values_spec] describes: counts by string equality, ranked by
    descending count then first occurrence; [least_common] only with more
    than five distinct values, ascending by count with ties in reverse
    first-occurrence order.  For [["a","a","b","c","a","b"]] the counter is
    a:3, b:2, c:1 and [most_common] is [[(a,3),(b,2),(c,1)]]. *)
Theorem string_array_common_values :
  (forall (R : Type) (rsample : R -> list nat -> nat -> list nat * R) (s : R) (strs : list string),
      strs <> [] -> (length strs < 1000)%nat ->
      common_values_spec strs (fst (compute_array_stats rsample s (map PStr strs)))) /\
  (forall (R : Type) (rsample : R -> list nat -> nat -> list nat * R) (s : R),
      counter ["a"; "a"; "b"; "c"; "a"; "b"] = [("a", 3%nat); ("b", 2%nat); ("c", 1%nat)] /\
      dict_get "most_common"
        (fst (compute_array_stats rsample s (map PStr ["a"; "a"; "b"; "c"; "a"; "b"])))
      = Some (PList (map common_entry [("a", 3%nat); ("b", 2%nat); ("c", 1%nat)]))).
Proof.
  split.
  - intros R rs s strs Hne Hlen.
    destruct (string_stats_common rs s strs Hne Hlen) as [Hmc Hlc].
    destruct (counter_invariant strs) as [Hk [Hnd [Hc Hs]]].
    destruct (sort_desc_spec strs _ Hs) as [HS HP].
    exists (sort_desc (counter strs)). repeat split.
    + exact (Permutation_NoDup (Permutation_map fst (Permutation_sym HP)) Hnd).
    + intros Hv. apply Hk. exact (Permutation_in _ (Permutation_map fst HP) Hv).
    + intros Hv. apply (Permutation_in _ (Permutation_map fst (Permutation_sym HP))).
      apply Hk. exact Hv.
    + intros p Hp. apply Hc. exact (Permutation_in _ HP Hp).
    + exact HS.
    + exact Hmc.
    + rewrite Hlc, (Permutation_length HP). reflexivity.
  - intros R rs s. split; [vm_compute; reflexivity|].
    rewrite (proj1 (string_stats_common rs s ["a"; "a"; "b"; "c"; "a"; "b"]
                      ltac:(intro E; discriminate E) ltac:(simpl; lia))).
    vm_compute. reflexivity.
Qed.

Lemma string_array_common_values_witness :
  ["a"; "a"; "b"; "c"; "a"; "b"] <> [] /\
  (length ["a"; "a"; "b"; "c"; "a"; "b"] < 1000)%nat /\
  common_values_spec ["a"; "a"; "b"; "c"; "a"; "b"]
    (fst (compute_array_stats first_sample tt (map PStr ["a"; "a"; "b"; "c"; "a"; "b"]))).
Proof.
  split; [intro E; discriminate E|]. split; [simpl; lia|].
  exact (proj1 string_array_common_values unit first_sample tt ["a"; "a"; "b"; "c"; "a"; "b"]
           ltac:(intro E; discriminate E) ltac:(simpl; lia)).
Defined.

(** *** C1: the schema of an array of objects *)

Lemma dict_get_merge_first :
  forall k sch c,
    dict_get k (merge_first c sch)
    = match dict_get k c with Some v => Some v | None => dict_get k sch end.
Proof.
  intros k sch. unfold merge_first. induction sch as [|[k' v'] r IH]; intros c; simpl.
  - destruct (dict_get k c); reflexivity.
  - rewrite IH. unfold dict_has.
    destruct (String.eqb_spec k k') as [<-|Hne].
    + destruct (dict_get k c) eqn:E; [rewrite E; reflexivity|].
      rewrite dict_get_set_eq. reflexivity.
    + destruct (dict_get k' c); [reflexivity|].
      rewrite dict_get_set_neq by exact Hne. reflexivity.
Qed.

Lemma dict_get_combine_fold :
  forall {R} (rs : R -> list nat -> nat -> list nat * R) k items c s,
    dict_get k (fst (fold_left (fun acc item =>
      let '(c, s0) := acc in
      match item with
      | PDict d => let '(sch, s1) := analyze_object rs d s0 in (merge_first c sch, s1)
      | _ => (c, s0)
      end) items (c, s)))
    = match dict_get k c with
      | Some v => Some v
      | None => first_def k (element_schemas rs items s)
      end.
Proof.
  intros R rs k items. induction items as [|item items IH]; intros c s; simpl.
  - destruct (dict_get k c); reflexivity.
  - destruct item; try apply IH.
    destruct (analyze_object rs d s) as [sch s1]. rewrite IH, dict_get_merge_first. simpl.
    destruct (dict_get k c); [reflexivity|]. destruct (dict_get k sch); reflexivity.
Qed.

(** C1 (counterexample): in [{"arr": [{"x": 1}, {"y": 2}]}] the properties
    of [arr] have the key [x] of its first element but not the key [y] of the
    second. *)
Lemma nested_array_properties_first_only :
  exists sch props,
    dict_get "arr" (fst (analyze_json first_sample nested_objects_doc tt)) = Some (PDict sch) /\
    dict_get "properties" sch = Some (PDict props) /\
    dict_has "x" props = true /\ dict_has "y" props = false.
Proof. do 2 eexists. vm_compute. repeat split. Qed.

(** C1 (corrected): for a non-empty root array, each key other than
    [__array_stats] maps to its schema in the first analysed dict element
    among the first ten that has it (so the keys are the union of theirs),
    and [__array_stats] holds the array's stats; an array nested under a key
    takes its [properties] from its first element alone. *)
Theorem analyze_array_of_objects :
  forall (R : Type) (rsample : R -> list nat -> nat -> list nat * R) (s : R),
    (forall (l : list py) (k : string), l <> [] -> k <> "__array_stats" ->
       dict_get k (fst (analyze_json rsample (PList l) s))
       = first_def k (element_schemas rsample (firstn 10 l) s)) /\
    (forall (l : list py), l <> [] ->
       dict_get "__array_stats" (fst (analyze_json rsample (PList l) s))
       = Some (PDict (fst (compute_array_stats rsample
                             (snd (combine_sample rsample (firstn 10 l) s)) l)))) /\
    (forall obj key d0 rest,
       exists sch,
         fst (analyze_value rsample obj key (PList (PDict d0 :: rest)) s) = PDict sch /\
         dict_get "properties" sch
         = Some (PDict (fst (analyze_object rsample d0
                              (snd (compute_array_stats rsample s (PDict d0 :: rest))))))).
Proof.
  intros R rs s. repeat split.
  - intros [|x l] k Hne Hk; [congruence|]. unfold analyze_json.
    pose proof (dict_get_combine_fold rs k (firstn 10 (x :: l)) [] s) as H.
    unfold combine_sample. destruct (fold_left _ _ _) as [c s1] eqn:E.
    destruct (compute_array_stats rs s1 (x :: l)) as [st s2].
    simpl. rewrite dict_get_set_neq by exact Hk. simpl in H. exact H.
  - intros [|x l] Hne; [congruence|]. unfold analyze_json.
    destruct (combine_sample rs (firstn 10 (x :: l)) s) as [c s1]. cbn [snd].
    destruct (compute_array_stats rs s1 (x :: l)) as [st s2]. cbn [fst].
    apply dict_get_set_eq.
  - intros obj key d0 rest. cbn [analyze_value].
    destruct (compute_array_stats rs s (PDict d0 :: rest)) as [st s']. cbn [snd].
    unfold analyze_object. destruct (entries_loop (analyze_value rs d0) d0 [] s') as [p s''].
    eexists. split; [reflexivity|]. apply dict_get_set_eq.
Qed.

Lemma analyze_array_of_objects_witness :
  let l := [PDict [("x", PInt 1)]; PDict [("x", PInt 2); ("y", PInt 3)]] in
  l <> [] /\ "y" <> "__array_stats" /\
  dict_get "y" (fst (analyze_json first_sample (PList l) tt))
  = first_def "y" (element_schemas first_sample (firstn 10 l) tt).
Proof.
  intros l. split; [intro E; discriminate E|]. split; [intro E; discriminate E|].
  exact (proj1 (analyze_array_of_objects unit first_sample tt) l "y"
           ltac:(intro E; discriminate E) ltac:(intro E; discriminate E)).
Defined.

(** *** C3: analysis is deterministic when nothing is sampled *)

Lemma compute_array_stats_state_free :
  forall {R} (rs : R -> list nat -> nat -> list nat * R) l,
    samples l = false -> state_free (fun s => compute_array_stats rs s l).
Proof.
  intros R rs l Hl s s'. destruct l as [|a0 l']; [reflexivity|].
  unfold compute_array_stats. cbv zeta.
  destruct (forallb (fun x => isinstance x (type_of a0)) (a0 :: l')
            && forallb is_int_or_float (a0 :: l')); [reflexivity|].
  destruct (forallb (fun x => isinstance x (type_of a0)) (a0 :: l')
            && forallb is_str (a0 :: l')) eqn:E; [|reflexivity].
  destruct (Nat.ltb 5 (length (a0 :: l'))) eqn:E5; [|reflexivity].
  exfalso. unfold samples in Hl. apply andb_true_iff in E as [_ E].
  rewrite E5, E in Hl. discriminate Hl.
Qed.

Lemma entries_loop_state_free :
  forall {R} (f : string -> py -> R -> py * R) d acc,
    Forall (fun kv => state_free (f (fst kv) (snd kv))) d ->
    state_free (entries_loop f d acc).
Proof.
  intros R f d. induction d as [|[k v] r IH]; intros acc Hd s s'; [reflexivity|].
  inversion Hd as [|? ? Hkv Hr]; subst. simpl in Hkv. cbn [entries_loop].
  rewrite (Hkv s s'). destruct (f k v s') as [e t]. cbv beta iota.
  exact (IH _ Hr s t).
Qed.

Lemma analyze_value_state_free :
  forall {R} (rs : R -> list nat -> nat -> list nat * R) v,
    no_sampling v = true ->
    (forall obj key, state_free (analyze_value rs obj key v)) /\
    match v with
    | PDict d => state_free (entries_loop (analyze_value rs d) d [])
    | _ => True
    end.
Proof.
  intros R rs v.
  induction v as [ | | | | | | l IHl | l IHl | d IHd ] using py_ind'; intros Hv;
    try (split; [intros obj key s0 s1; reflexivity | exact I]).
  - simpl in Hv. apply andb_true_iff in Hv as [Hs Hl]. apply negb_true_iff in Hs.
    split; [|exact I]. intros obj key s s'. cbn [analyze_value].
    rewrite (compute_array_stats_state_free rs l Hs s s').
    destruct (compute_array_stats rs s' l) as [st t]. cbv beta iota.
    destruct l as [|a0 l']; [reflexivity|].
    destruct a0; try reflexivity.
    inversion IHl as [|? ? Hd0 _]; subst. simpl in Hl. apply andb_true_iff in Hl as [Hl0 _].
    destruct (Hd0 Hl0) as [_ Hent].
    rewrite (Hent s t). destruct (entries_loop (analyze_value rs d) d [] t) as [p u].
    reflexivity.
  - simpl in Hv.
    assert (Hent : state_free (entries_loop (analyze_value rs d) d [])).
    { apply entries_loop_state_free. rewrite Forall_forall in IHd |- *.
      intros kv Hkv. rewrite forallb_forall in Hv.
      exact (proj1 (IHd kv Hkv (Hv kv Hkv)) d (fst kv)). }
    split; [|exact Hent]. intros obj key s s'. cbn [analyze_value].
    rewrite (Hent s s'). destruct (entries_loop (analyze_value rs d) d [] s') as [p u].
    reflexivity.
Qed.

Lemma combine_fold_state_free :
  forall {R} (rs : R -> list nat -> nat -> list nat * R) items c,
    Forall (fun v => match v with
                     | PDict d => state_free (analyze_object rs d)
                     | _ => True
                     end) items ->
    state_free (fun s => fold_left (fun acc item =>
      let '(c, s0) := acc in
      match item with
      | PDict d => let '(sch, s1) := analyze_object rs d s0 in (merge_first c sch, s1)
      | _ => (c, s0)
      end) items (c, s)).
Proof.
  intros R rs items. induction items as [|item items IH]; intros c Hi s s'; [reflexivity|].
  inversion Hi as [|? ? Ha Hr]; subst. cbn [fold_left].
  destruct item; try exact (IH c Hr s s').
  rewrite (Ha s s'). destruct (analyze_object rs d s') as [sch t]. cbv beta iota.
  exact (IH _ Hr s t).
Qed.

Lemma Forall_firstn_py :
  forall (Q : py -> Prop) n l, Forall Q l -> Forall Q (firstn n l).
Proof.
  intros Q n. induction n as [|n IH]; intros [|x l] H; simpl; try constructor.
  - inversion H; assumption.
  - inversion H; subst. apply IH. assumption.
Qed.

(** C3 (corrected): whatever the two states of [random], analysing a value
    in which no array of more than five strings occurs gives the same schema. *)
Theorem analyze_json_deterministic_without_sampling :
  forall {R} (rsample : R -> list nat -> nat -> list nat * R) (v : py) (s1 s2 : R),
    no_sampling v = true ->
    fst (analyze_json rsample v s1) = fst (analyze_json rsample v s2).
Proof.
  intros R rs v s1 s2 Hv. destruct v as [| | | | | |l|l|d]; try reflexivity.
  - destruct l as [|x l]; [reflexivity|].
    pose proof Hv as Hv'. simpl in Hv'. apply andb_true_iff in Hv' as [Hs Hl].
    apply negb_true_iff in Hs. change (forallb no_sampling (x :: l) = true) in Hl.
    assert (Hf : Forall (fun v => match v with
                                  | PDict d => state_free (analyze_object rs d)
                                  | _ => True
                                  end) (firstn 10 (x :: l))).
    { apply Forall_firstn_py. apply Forall_forall. intros w Hw.
      rewrite forallb_forall in Hl. specialize (Hl w Hw).
      destruct w; try exact I. exact (proj2 (analyze_value_state_free rs _ Hl)). }
    pose proof (combine_fold_state_free rs (firstn 10 (x :: l)) [] Hf s1 s2) as Hc.
    cbv beta in Hc. unfold analyze_json, combine_sample. rewrite Hc.
    destruct (fold_left _ (firstn 10 (x :: l)) ([], s2)) as [c t]. cbv beta iota.
    rewrite (compute_array_stats_state_free rs (x :: l) Hs s1 t).
    destruct (compute_array_stats rs t (x :: l)) as [st u]. reflexivity.
  - destruct (analyze_value_state_free rs (PDict d) Hv) as [_ Hent].
    unfold analyze_json, analyze_object. rewrite (Hent s1 s2). reflexivity.
Qed.

Definition det_doc : py := PDict [("a", PList [PStr "x"; PStr "y"]); ("n", PInt 3)].

Lemma analyze_json_deterministic_without_sampling_witness :
  no_sampling det_doc = true /\
  fst (analyze_json shifting_sample det_doc 0%nat) = fst (analyze_json shifting_sample det_doc 2%nat).
Proof.
  split; [reflexivity|].
  apply (analyze_json_deterministic_without_sampling shifting_sample det_doc 0%nat 2%nat).
  reflexivity.
Defined.

(** ** Further properties of the code *)

(** *** Visibility filtering *)

Lemma keys_unique_NoDup : forall ks, keys_unique ks = true -> NoDup ks.
Proof.
  induction ks as [|k r IH]; simpl; intros H; [constructor|].
  apply andb_true_iff in H as [H1 H2]. constructor; [|exact (IH H2)].
  intros Hin. apply negb_true_iff in H1.
  assert (existsb (String.eqb k) r = true) by (apply existsb_exists; exists k; split;
    [exact Hin | apply String.eqb_refl]).
  congruence.
Qed.

Lemma dict_get_In : forall k v d, dict_get k d = Some v -> In (k, v) d.
Proof.
  intros k v d. induction d as [|[k' v'] r IH]; simpl; intros H; [discriminate|].
  destruct (String.eqb_spec k k') as [<-|_]; [inversion H; left; reflexivity | right; exact (IH H)].
Qed.

Lemma existsb_ext_in :
  forall {A} (f g : A -> bool) l, (forall x, In x l -> f x = g x) -> existsb f l = existsb g l.
Proof.
  intros A f g l. induction l as [|x l IH]; simpl; intros H; [reflexivity|].
  rewrite (H x (or_introl eq_refl)), IH; [reflexivity|]. intros y Hy. apply H. right. exact Hy.
Qed.

Lemma existsb_and_const :
  forall {A} (g : A -> bool) c l, existsb (fun x => g x && c) l = existsb g l && c.
Proof.
  intros A g c l. induction l as [|x l IH]; simpl; [reflexivity|].
  rewrite IH. destruct (g x), c; simpl; rewrite ?andb_false_r, ?andb_true_r; reflexivity.
Qed.

Lemma existsb_map_py :
  forall (f : py -> bool) (g : py -> py) l, existsb f (map g l) = existsb (fun x => f (g x)) l.
Proof. intros f g l. induction l as [|x l IH]; simpl; [reflexivity | rewrite IH; reflexivity]. Qed.

Lemma has_path_cons_dict :
  forall k r d, has_path (k :: r) (PDict d)
                = match dict_get k d with Some x => has_path r x | None => false end.
Proof. reflexivity. Qed.

Lemma has_path_cons_list :
  forall k r l, has_path (k :: r) (PList l) = existsb (has_path (k :: r)) l.
Proof. reflexivity. Qed.

Lemma hidden_prefix_nil : forall cp p, hidden_prefix [] cp p = false.
Proof. intros cp p. revert cp. induction p as [|k r IH]; intros cp; simpl; [reflexivity | apply IH]. Qed.

(** [_filter_recursive]'s loop over a dict with distinct keys keeps, in
    order, the items whose path is not hidden, each with its value filtered. *)
Lemma filter_items_map :
  forall hidden cp f d res,
    NoDup (map fst d) -> (forall k, In k (map fst d) -> dict_has k res = false) ->
    filter_items hidden cp f d res
    = res ++ map (fun kv => (fst kv, f (snd kv) (cp ++ [fst kv])))
                 (filter (fun kv => negb (path_mem (cp ++ [fst kv]) hidden)) d).
Proof.
  intros hidden cp f d. induction d as [|[k v] r IH]; intros res Hnd Hres; simpl.
  - rewrite app_nil_r. reflexivity.
  - inversion Hnd as [|? ? Hk Hr]; subst.
    destruct (path_mem (cp ++ [k]) hidden); simpl.
    + apply IH; [exact Hr|]. intros k' Hk'. apply Hres. right. exact Hk'.
    + rewrite dict_set_fresh by (apply Hres; left; reflexivity).
      rewrite IH; [rewrite <- app_assoc; reflexivity | exact Hr |].
      intros k' Hk'. rewrite dict_has_app, (Hres k' (or_intror Hk')). simpl.
      unfold dict_has. simpl. destruct (String.eqb_spec k' k) as [->|_]; [contradiction | reflexivity].
Qed.

Lemma dict_get_not_in : forall k d, ~ In k (map fst d) -> dict_get k d = None.
Proof.
  intros k d H. apply dict_has_false_not_in in H. unfold dict_has in H.
  destruct (dict_get k d); [discriminate | reflexivity].
Qed.

Lemma dict_get_map_filter :
  forall (g : string -> py -> py) (P : string -> bool) k d,
    NoDup (map fst d) ->
    dict_get k (map (fun kv => (fst kv, g (fst kv) (snd kv))) (filter (fun kv => P (fst kv)) d))
    = match dict_get k d with
      | Some v => if P k then Some (g k v) else None
      | None => None
      end.
Proof.
  intros g P k d. induction d as [|[k' v] r IH]; simpl; intros Hnd; [reflexivity|].
  inversion Hnd as [|? ? Hk Hr]; subst.
  destruct (String.eqb_spec k k') as [<-|Hne].
  - destruct (P k); simpl; [rewrite String.eqb_refl; reflexivity|].
    rewrite (IH Hr), (dict_get_not_in k r Hk). reflexivity.
  - destruct (P k'); simpl; [apply String.eqb_neq in Hne; rewrite Hne|]; exact (IH Hr).
Qed.

Lemma NoDup_map_fst_filter :
  forall (P : string * py -> bool) d, NoDup (map fst d) -> NoDup (map fst (filter P d)).
Proof.
  intros P d. induction d as [|kv r IH]; simpl; intros Hnd; [constructor|].
  inversion Hnd as [|? ? Hk Hr]; subst.
  destruct (P kv); simpl; [|exact (IH Hr)].
  constructor; [|exact (IH Hr)].
  intros Hin. apply Hk. apply in_map_iff in Hin as [kv' [E Hin]].
  apply filter_In in Hin as [Hin _]. rewrite <- E. apply in_map. exact Hin.
Qed.

Lemma json_keys_unique_dict :
  forall d, json_keys_unique (PDict d) = true ->
            NoDup (map fst d) /\ forall kv, In kv d -> json_keys_unique (snd kv) = true.
Proof.
  intros d H. simpl in H. apply andb_true_iff in H as [H1 H2].
  split; [exact (keys_unique_NoDup _ H1)|]. intros kv Hkv. rewrite forallb_forall in H2. exact (H2 kv Hkv).
Qed.

Lemma filter_items_nil :
  forall hidden cp f d, NoDup (map fst d) ->
    filter_items hidden cp f d []
    = map (fun kv => (fst kv, f (snd kv) (cp ++ [fst kv])))
          (filter (fun kv => negb (path_mem (cp ++ [fst kv]) hidden)) d).
Proof.
  intros hidden cp f d Hnd. rewrite filter_items_map; [reflexivity | exact Hnd | reflexivity].
Qed.

Lemma filter_recursive_has_path :
  forall hidden p v cp, json_keys_unique v = true ->
    has_path p (filter_recursive hidden v cp) = has_path p v && negb (hidden_prefix hidden cp p).
Proof.
  intros hidden p. induction p as [|k r IHr]; intros v cp Hv; [reflexivity|].
  revert cp Hv. induction v as [| | | | | s | l IHl | l IHl | d IHd] using py_ind'; intros cp Hv;
    try reflexivity.
  - simpl filter_recursive. rewrite !has_path_cons_list, existsb_map_py, <- existsb_and_const.
    apply existsb_ext_in. intros x Hx. rewrite Forall_forall in IHl. apply IHl; [exact Hx|].
    simpl in Hv. rewrite forallb_forall in Hv. exact (Hv x Hx).
  - apply json_keys_unique_dict in Hv as [Hnd Hvs].
    simpl filter_recursive. rewrite !has_path_cons_dict, filter_items_nil by exact Hnd.
    rewrite (dict_get_map_filter (fun k0 v0 => filter_recursive hidden v0 (cp ++ [k0]))
               (fun k0 => negb (path_mem (cp ++ [k0]) hidden)) k d Hnd).
    simpl hidden_prefix. destruct (dict_get k d) as [v0|] eqn:E; [|reflexivity].
    destruct (path_mem (cp ++ [k]) hidden); simpl.
    + rewrite andb_false_r. reflexivity.
    + apply IHr. apply (Hvs (k, v0)). exact (dict_get_In _ _ _ E).
Qed.

(** Composition of two filterings of a dict's items, given the composition
    on each value. *)
Lemma filter_items_compose :
  forall h1 h2 cp d,
    Forall (fun kv => forall cp', filter_recursive h2 (filter_recursive h1 (snd kv) cp') cp'
                                  = filter_recursive (h1 ++ h2) (snd kv) cp') d ->
    map (fun kv => (fst kv, filter_recursive h2 (snd kv) (cp ++ [fst kv])))
      (filter (fun kv => negb (path_mem (cp ++ [fst kv]) h2))
         (map (fun kv => (fst kv, filter_recursive h1 (snd kv) (cp ++ [fst kv])))
            (filter (fun kv => negb (path_mem (cp ++ [fst kv]) h1)) d)))
    = map (fun kv => (fst kv, filter_recursive (h1 ++ h2) (snd kv) (cp ++ [fst kv])))
        (filter (fun kv => negb (path_mem (cp ++ [fst kv]) (h1 ++ h2))) d).
Proof.
  intros h1 h2 cp d. induction d as [|[k v] r IH]; intros HF; [reflexivity|].
  inversion HF as [|? ? Hkv Hr]; subst. simpl.
  replace (path_mem (cp ++ [k]) (h1 ++ h2)) with (path_mem (cp ++ [k]) h1 || path_mem (cp ++ [k]) h2)
    by (unfold path_mem; rewrite existsb_app; reflexivity).
  destruct (path_mem (cp ++ [k]) h1); simpl; [exact (IH Hr)|].
  destruct (path_mem (cp ++ [k]) h2); simpl; [exact (IH Hr)|].
  simpl in Hkv. rewrite (Hkv (cp ++ [k])), (IH Hr). reflexivity.
Qed.

Lemma filter_recursive_compose :
  forall h1 h2 v cp, json_keys_unique v = true ->
    filter_recursive h2 (filter_recursive h1 v cp) cp = filter_recursive (h1 ++ h2) v cp.
Proof.
  intros h1 h2 v. induction v as [| | | | | s | l IHl | l IHl | d IHd] using py_ind'; intros cp Hv;
    try reflexivity.
  - simpl. rewrite map_map. f_equal. apply map_ext_in. intros x Hx.
    rewrite Forall_forall in IHl. apply IHl; [exact Hx|].
    simpl in Hv. rewrite forallb_forall in Hv. exact (Hv x Hx).
  - apply json_keys_unique_dict in Hv as [Hnd Hvs]. simpl filter_recursive.
    rewrite (filter_items_nil h1) by exact Hnd.
    rewrite filter_items_nil.
    2:{ rewrite map_map. simpl. apply NoDup_map_fst_filter. exact Hnd. }
    rewrite filter_items_nil by exact Hnd. f_equal. apply filter_items_compose.
    rewrite Forall_forall in IHd |- *. intros kv Hkv cp'. apply IHd; [exact Hkv | exact (Hvs kv Hkv)].
Qed.

(** X1 (filter_json_by_visibility, _filter_recursive): on a value whose dicts
    have distinct keys, a path is present after filtering exactly when it was
    present before and none of its non-empty prefixes is a hidden path; in
    particular no hidden path is ever shown and filtering adds no path. *)
Theorem filter_json_by_visibility_paths :
  forall hidden v p, json_keys_unique v = true ->
    has_path p (filter_json_by_visibility hidden v) = has_path p v && negb (hidden_prefix hidden [] p).
Proof.
  intros hidden v p Hv. destruct hidden as [|h t].
  - simpl. rewrite hidden_prefix_nil, andb_true_r. reflexivity.
  - apply filter_recursive_has_path. exact Hv.
Qed.

Definition filter_doc : py :=
  PDict [("a", PDict [("b", PInt 1); ("c", PInt 2)]); ("l", PList [PDict [("b", PInt 3)]])].

Lemma filter_json_by_visibility_paths_witness :
  json_keys_unique filter_doc = true /\
  has_path ["a"; "b"] (filter_json_by_visibility [["a"; "b"]] filter_doc)
  = has_path ["a"; "b"] filter_doc && negb (hidden_prefix [["a"; "b"]] [] ["a"; "b"]).
Proof.
  split; [reflexivity|]. apply filter_json_by_visibility_paths. reflexivity.
Defined.

(** X2 (filter_json_by_visibility, _filter_recursive): on a value whose dicts
    have distinct keys, filtering by one list of hidden paths and then by a
    second gives the same value as filtering once by the two lists together. *)
Theorem filter_json_by_visibility_compose :
  forall h1 h2 v, json_keys_unique v = true ->
    filter_json_by_visibility h2 (filter_json_by_visibility h1 v) = filter_json_by_visibility (h1 ++ h2) v.
Proof.
  intros h1 h2 v Hv. destruct h1 as [|a1 t1]; [reflexivity|].
  destruct h2 as [|a2 t2].
  - simpl. rewrite app_nil_r. reflexivity.
  - simpl filter_json_by_visibility. apply filter_recursive_compose. exact Hv.
Qed.

Lemma filter_json_by_visibility_compose_witness :
  json_keys_unique filter_doc = true /\
  filter_json_by_visibility [["l"; "b"]] (filter_json_by_visibility [["a"; "c"]] filter_doc)
  = filter_json_by_visibility ([["a"; "c"]] ++ [["l"; "b"]]) filter_doc.
Proof.
  split; [reflexivity|]. apply filter_json_by_visibility_compose. reflexivity.
Defined.

(** *** Hidden paths and the loaded document *)

Lemma path_eqb_spec : forall p q, path_eqb p q = true <-> p = q.
Proof.
  induction p as [|a p IH]; intros [|b q]; unfold path_eqb; simpl; split; intros H;
    try discriminate; try reflexivity.
  - destruct (Nat.eqb (length p) (length q)) eqn:El; [|discriminate].
    destruct (String.eqb_spec a b) as [->|]; [|discriminate].
    f_equal. apply IH. unfold path_eqb. rewrite El. exact H.
  - inversion H; subst. rewrite Nat.eqb_refl, String.eqb_refl. simpl.
    assert (E : path_eqb q q = true) by (apply IH; reflexivity).
    unfold path_eqb in E. rewrite Nat.eqb_refl in E. exact E.
Qed.

Lemma path_eqb_sym : forall p q, path_eqb p q = path_eqb q p.
Proof.
  intros p q. destruct (path_eqb p q) eqn:E1, (path_eqb q p) eqn:E2; try reflexivity.
  - apply path_eqb_spec in E1. subst. rewrite (proj2 (path_eqb_spec q q) eq_refl) in E2. discriminate.
  - apply path_eqb_spec in E2. subst. rewrite (proj2 (path_eqb_spec p p) eq_refl) in E1. discriminate.
Qed.

Lemma path_mem_set_discard :
  forall p q h, path_mem q (set_discard p h) = if path_eqb q p then false else path_mem q h.
Proof.
  intros p q h. unfold path_mem, set_discard. destruct (path_eqb q p) eqn:Eqp.
  - apply path_eqb_spec in Eqp. subst q.
    induction h as [|r h IH]; simpl; [reflexivity|].
    destruct (path_eqb p r) eqn:E; simpl; [exact IH | rewrite E; exact IH].
  - induction h as [|r h IH]; simpl; [reflexivity|].
    destruct (path_eqb p r) eqn:E; simpl.
    + apply path_eqb_spec in E. rewrite <- E, Eqp. exact IH.
    + rewrite IH. reflexivity.
Qed.

Lemma path_mem_set_add :
  forall p q h, path_mem q (set_add p h) = if path_eqb q p then true else path_mem q h.
Proof.
  intros p q h. unfold set_add.
  destruct (path_mem p h) eqn:Ep.
  - destruct (path_eqb q p) eqn:E; [apply path_eqb_spec in E; subst; exact Ep | reflexivity].
  - unfold path_mem. rewrite existsb_app. simpl. fold (path_mem q h).
    rewrite orb_false_r. destruct (path_eqb q p); [apply orb_true_r | apply orb_false_r].
Qed.

(** X3 (toggle_attribute_visibility): after toggling [path], [path] is hidden
    exactly when it was toggled invisible, and every other path keeps its
    hidden or shown state. *)
Theorem toggle_attribute_visibility_hidden :
  forall w path is_visible q,
    path_mem q (hidden_paths (toggle_attribute_visibility w path is_visible))
    = if path_eqb q path then negb is_visible else path_mem q (hidden_paths w).
Proof.
  intros w path is_visible q. unfold toggle_attribute_visibility, set_hidden. simpl.
  destruct is_visible; [apply path_mem_set_discard | apply path_mem_set_add].
Qed.

Lemma window_step_consistent :
  forall json_loads w e, window_consistent json_loads w ->
    window_consistent json_loads (window_step json_loads w e).
Proof.
  intros json_loads w e Hw.
  destruct e as [p vis | f r | q r |]; simpl.
  - destruct Hw as [Hw|Hw]; [left | right]; exact Hw.
  - unfold load_json_file. destruct r as [text|]; [|left; simpl; auto].
    destruct (json_loads text) as [v|] eqn:E; [|left; simpl; auto].
    right. exists f, text, v. simpl. auto.
  - unfold run_jq_query.
    destruct (current_json_file w) eqn:Ef; [|exact Hw].
    assert (Hr : window_consistent json_loads (reset_to_original_json json_loads w)).
    { unfold reset_to_original_json.
      destruct (json_content w) as [text|] eqn:Ec; [|exact Hw].
      destruct text as [|a t]; [exact Hw|].
      destruct (json_loads (String a t)) as [v|] eqn:E; [|exact Hw].
      right. exists s, (String a t), v. simpl. auto. }
    destruct q; [exact Hr|].
    destruct r as [out | err |]; try exact Hw.
    destruct (json_loads out); [|exact Hw].
    destruct Hw as [[H1 _]|(f0 & c & v & H1 & H2 & H3 & H4)]; [congruence|].
    right. exists s, c, v. simpl. auto.
  - unfold escape_key. destruct (current_json_file w) eqn:Ef; [|exact Hw].
    unfold reset_to_original_json.
    destruct (json_content w) as [text|] eqn:Ec; [|exact Hw].
    destruct text as [|a t]; [exact Hw|].
    destruct (json_loads (String a t)) as [v|] eqn:E; [|exact Hw].
    right. exists s, (String a t), v. simpl. auto.
Qed.

(** X5 (load_json_file, reset_to_original_json, run_jq_query,
    toggle_attribute_visibility, the Escape key): from the window [__init__]
    builds, after any sequence of loads, queries, Escape presses and
    visibility toggles, either no file is loaded and there is no content and
    no parsed value, or a file is loaded and the parsed value is [json.loads]
    of the loaded content. *)
Theorem window_steps_consistent :
  forall json_loads evs,
    window_consistent json_loads (fold_left (window_step json_loads) evs initial_window).
Proof.
  intros json_loads evs.
  assert (H0 : window_consistent json_loads initial_window) by (left; simpl; auto).
  revert H0. generalize initial_window. induction evs as [|e evs IH]; intros w Hw; simpl;
    [exact Hw|]. apply IH. apply window_step_consistent. exact Hw.
Qed.

(** *** The jq query input's history *)

Lemma lstrip_l_cases :
  forall l, lstrip_l l = [] \/ exists c r, lstrip_l l = c :: r /\ is_space c = false.
Proof.
  induction l as [|c r IH]; simpl; [left; reflexivity|].
  destruct (is_space c) eqn:E; [exact IH | right; exists c, r; auto].
Qed.

Lemma lstrip_l_snoc :
  forall m c, is_space c = false ->
    exists d r2 p, lstrip_l (m ++ [c]) = d :: r2 /\ is_space d = false /\ m ++ [c] = p ++ d :: r2.
Proof.
  intros m c Hc. induction m as [|a m IH]; simpl.
  - rewrite Hc. exists c, [], []. auto.
  - destruct (is_space a) eqn:Ea.
    + destruct IH as (d & r2 & p & E & Hd & Eq). exists d, r2, (a :: p).
      rewrite E, Eq. auto.
    + exists a, (m ++ [c]), []. auto.
Qed.

Lemma hd_rev_last : forall (l : list ascii) x, hd x (rev l) = last l x.
Proof.
  intros l x. induction l as [|a l IH] using rev_ind; [reflexivity|].
  rewrite rev_app_distr, last_last. reflexivity.
Qed.

Lemma last_app_cons : forall (p : list ascii) d r x, last (p ++ d :: r) x = last (d :: r) x.
Proof.
  intros p d r x. rewrite <- !hd_rev_last, rev_app_distr.
  simpl rev. destruct (rev r); reflexivity.
Qed.

Lemma last_default_irrel : forall (l : list ascii) x y, l <> [] -> last l x = last l y.
Proof.
  induction l as [|a l IH]; intros x y H; [contradiction|].
  destruct l as [|b l]; [reflexivity|]. simpl. apply IH. discriminate.
Qed.

(** What [str.strip()] returns is empty, or starts and ends with a
    non-whitespace character. *)
Lemma py_strip_entry :
  forall s, py_strip s = EmptyString \/ entry_ok (py_strip s) = true.
Proof.
  intros s. unfold py_strip.
  destruct (lstrip_l_cases (list_ascii_of_string s)) as [E|(c & r & E & Hc)]; rewrite E;
    [left; reflexivity|right].
  unfold entry_ok. rewrite list_ascii_of_string_of_list_ascii.
  simpl rev at 2. destruct (lstrip_l_snoc (rev r) c Hc) as (d & r2 & p & E2 & Hd & Eq).
  rewrite E2.
  assert (Hhd : hd c (rev (d :: r2)) = c).
  { rewrite hd_rev_last, <- (last_app_cons p), <- Eq, last_last. reflexivity. }
  assert (Hlast : last (rev (d :: r2)) c = d) by (simpl rev; apply last_last).
  assert (Hne : rev (d :: r2) <> []) by (simpl; intro H; destruct (rev r2); discriminate).
  destruct (rev (d :: r2)) as [|c' r'] eqn:Er; [contradiction|].
  simpl in Hhd. subst c'. rewrite Hc, Hlast, Hd. reflexivity.
Qed.

Lemma no_adjacent_dup_snoc :
  forall h q, no_adjacent_dup h = true -> (h = [] \/ String.eqb q (history_last h) = false) ->
    no_adjacent_dup (h ++ [q]) = true.
Proof.
  unfold history_last. induction h as [|a r IH]; intros q Hh Hq; [reflexivity|].
  destruct r as [|b r].
  - simpl. destruct Hq as [Hq|Hq]; [discriminate|]. simpl in Hq.
    rewrite String.eqb_sym, Hq. reflexivity.
  - change ((a :: b :: r) ++ [q]) with (a :: ((b :: r) ++ [q])).
    simpl in Hh. apply andb_true_iff in Hh as [H1 H2].
    simpl. rewrite H1. simpl. apply IH; [exact H2|].
    destruct Hq as [Hq|Hq]; [discriminate | right; exact Hq].
Qed.

Lemma no_adjacent_dup_skipn :
  forall n h, no_adjacent_dup h = true -> no_adjacent_dup (skipn n h) = true.
Proof.
  induction n as [|n IH]; intros h Hh; [exact Hh|].
  destruct h as [|a r]; [reflexivity|]. simpl. apply IH.
  destruct r as [|b r]; [reflexivity|]. simpl in Hh. apply andb_true_iff in Hh as [_ H]. exact H.
Qed.

Lemma forallb_skipn :
  forall {A} (f : A -> bool) n l, forallb f l = true -> forallb f (skipn n l) = true.
Proof.
  intros A f n. induction n as [|n IH]; intros l Hl; [exact Hl|].
  destruct l as [|a r]; [reflexivity|]. simpl in Hl |- *. apply andb_true_iff in Hl as [_ H].
  exact (IH r H).
Qed.

Lemma add_to_history_ok :
  forall h q, (length h <= 50)%nat -> forallb entry_ok h = true -> no_adjacent_dup h = true ->
    q = EmptyString \/ entry_ok q = true ->
    (length (add_to_history h q) <= 50)%nat /\ forallb entry_ok (add_to_history h q) = true /\
    no_adjacent_dup (add_to_history h q) = true.
Proof.
  intros h q Hl He Hd Hq. unfold add_to_history.
  destruct (negb (String.eqb q "") && (match h with [] => true | _ => false end
                                       || negb (String.eqb q (history_last h)))) eqn:Eg;
    [|auto].
  apply andb_true_iff in Eg as [Eq Eh].
  assert (Hq' : entry_ok q = true).
  { destruct Hq as [->|Hq]; [discriminate | exact Hq]. }
  assert (He' : forallb entry_ok (h ++ [q]) = true)
    by (rewrite forallb_app; simpl; rewrite He, Hq'; reflexivity).
  assert (Hd' : no_adjacent_dup (h ++ [q]) = true).
  { apply no_adjacent_dup_snoc; [exact Hd|].
    destruct h as [|a r]; [left; reflexivity|right].
    simpl in Eh. destruct (String.eqb q (history_last (a :: r))); [discriminate | reflexivity]. }
  destruct (Nat.ltb 50 (length (h ++ [q]))) eqn:El.
  - rewrite length_skipn. split; [lia|].
    split; [apply forallb_skipn; exact He' | apply no_adjacent_dup_skipn; exact Hd'].
  - apply Nat.ltb_ge in El. auto.
Qed.

Lemma navigate_history_history :
  forall st d, history (navigate_history st d) = history st.
Proof. intros st d. unfold navigate_history. destruct (history st) eqn:E; simpl; congruence. Qed.

Lemma navigate_history_ok :
  forall st d, history_ok st -> history_ok (navigate_history st d).
Proof.
  intros st d Hst. unfold navigate_history.
  destruct (history st) as [|a r] eqn:Eh; [exact Hst|].
  unfold history_ok in *. rewrite Eh in Hst. cbn [history history_index].
  destruct Hst as (Hl & He & Hd & Hi). split; [exact Hl|]. split; [exact He|]. split; [exact Hd|].
  repeat match goal with
         | |- context [Z.leb ?a ?b] => destruct (Z.leb_spec a b)
         | |- context [Z.ltb ?a ?b] => destruct (Z.ltb_spec a b)
         end; lia.
Qed.

Lemma key_press_ok : forall st k, history_ok st -> history_ok (key_press st k).
Proof.
  intros st k Hst. destruct k as [| | | | t]; simpl;
    try (apply navigate_history_ok; exact Hst).
  all: destruct Hst as (Hl & He & Hd & Hi).
  - unfold history_ok. simpl. auto.
  - unfold history_ok, enter_key. simpl.
    match goal with |- context [if ?c then _ else _] => destruct c end.
    + destruct (add_to_history_ok (history st) (py_strip (line_text st)) Hl He Hd
                  (py_strip_entry (line_text st))) as (H1 & H2 & H3).
      auto with zarith.
    + repeat split; auto; lia.
  - unfold history_ok. simpl. auto.
Qed.

(** X6 (add_to_history, navigate_history, keyPressEvent): from a new query
    input, after any sequence of key presses, the history holds at most 50
    entries, each non-empty with no whitespace at either end, no entry
    repeats the one before it, and [history_index] lies between -1 and the
    index of the oldest entry. *)
Theorem key_presses_history_ok :
  forall keys, history_ok (fold_left key_press keys initial_query_input).
Proof.
  intros keys.
  assert (H0 : history_ok initial_query_input) by (unfold history_ok; simpl; repeat split; lia).
  revert H0. generalize initial_query_input.
  induction keys as [|k keys IH]; intros st Hst; simpl; [exact Hst|].
  apply IH. apply key_press_ok. exact Hst.
Qed.

Lemma navigate_history_index :
  forall st d, history st <> [] ->
    history_index (navigate_history st d)
    = (if Z.leb (Z.of_nat (length (history st))) (history_index st + d)
       then Z.of_nat (length (history st)) - 1
       else if Z.ltb (history_index st + d) (-1) then -1 else history_index st + d)%Z.
Proof. intros st d H. unfold navigate_history. destruct (history st); [contradiction | reflexivity]. Qed.

Lemma navigate_history_current :
  forall st d, history st <> [] ->
    current_input (navigate_history st d)
    = if Z.eqb (history_index st) (-1) then line_text st else current_input st.
Proof. intros st d H. unfold navigate_history. destruct (history st); [contradiction | reflexivity]. Qed.

Lemma navigate_history_text :
  forall st d, history st <> [] ->
    line_text (navigate_history st d)
    = if Z.eqb (history_index (navigate_history st d)) (-1) then current_input (navigate_history st d)
      else nth (Z.to_nat (Z.of_nat (length (history st)) - 1 - history_index (navigate_history st d)))
               (history st) "".
Proof. intros st d H. unfold navigate_history. destruct (history st); [contradiction | reflexivity]. Qed.

Lemma history_nonempty_length : forall (h : list string), h <> [] -> (1 <= length h)%nat.
Proof. intros [|a r] H; [contradiction | simpl; lia]. Qed.

(** X7 (navigate_history): while not browsing the history ([history_index]
    = -1) with a non-empty history, Up and then Down gives back the text that
    was being typed, and leaves browsing again. *)
Theorem navigate_up_down_restores :
  forall st, history st <> [] -> history_index st = (-1)%Z ->
    line_text (navigate_history (navigate_history st 1%Z) (-1)%Z) = line_text st /\
    history_index (navigate_history (navigate_history st 1%Z) (-1)%Z) = (-1)%Z.
Proof.
  intros st Hh Hi. pose proof (history_nonempty_length _ Hh) as Hn.
  set (st1 := navigate_history st 1%Z).
  assert (H1h : history st1 = history st) by apply navigate_history_history.
  assert (H1i : history_index st1 = 0%Z).
  { unfold st1. rewrite navigate_history_index, Hi by exact Hh.
    destruct (Z.leb_spec (Z.of_nat (length (history st))) (-1 + 1)); [lia|]. reflexivity. }
  assert (H1c : current_input st1 = line_text st).
  { unfold st1. rewrite navigate_history_current, Hi by exact Hh. reflexivity. }
  assert (Hh1 : history st1 <> []) by (rewrite H1h; exact Hh).
  assert (H2i : history_index (navigate_history st1 (-1)%Z) = (-1)%Z).
  { rewrite navigate_history_index, H1i, H1h by exact Hh1.
    destruct (Z.leb_spec (Z.of_nat (length (history st))) (0 + -1)); [lia|]. reflexivity. }
  split; [|exact H2i].
  rewrite navigate_history_text, H2i, navigate_history_current, H1i by exact Hh1.
  exact H1c.
Qed.

Definition history_doc_input : query_input :=
  {| history := [".a"; ".b | keys"]; history_index := (-1)%Z; current_input := "";
     line_text := ".c" |}.

Lemma navigate_up_down_restores_witness :
  history history_doc_input <> [] /\ history_index history_doc_input = (-1)%Z /\
  line_text (navigate_history (navigate_history history_doc_input 1%Z) (-1)%Z)
  = line_text history_doc_input /\
  history_index (navigate_history (navigate_history history_doc_input 1%Z) (-1)%Z) = (-1)%Z.
Proof.
  split; [intro E; discriminate E|]. split; [reflexivity|].
  apply navigate_up_down_restores; [intro E; discriminate E | reflexivity].
Defined.

(** X8 (navigate_history): pressing Up [k+1] times while not browsing, with
    [n] entries in the history, shows the [min (k+1) n]-th most recent entry:
    each press goes one entry older and the oldest one stays once reached. *)
Theorem navigate_up_repeated :
  forall st k, history st <> [] -> history_index st = (-1)%Z ->
    let n := length (history st) in
    let st' := Nat.iter (S k) (fun s => navigate_history s 1%Z) st in
    history_index st' = (Z.of_nat (Nat.min (S k) n) - 1)%Z /\
    line_text st' = nth (n - Nat.min (S k) n) (history st) "".
Proof.
  intros st k Hh Hi n. cbv zeta.
  pose proof (history_nonempty_length _ Hh) as Hn. fold n in Hn.
  assert (Hhist : forall j, history (Nat.iter j (fun s => navigate_history s 1%Z) st) = history st).
  { induction j as [|j IH]; [reflexivity|]. simpl. rewrite navigate_history_history. exact IH. }
  assert (Hidx : forall j, history_index (Nat.iter (S j) (fun s => navigate_history s 1%Z) st)
                           = (Z.of_nat (Nat.min (S j) n) - 1)%Z).
  { induction j as [|j IH].
    - simpl Nat.iter. rewrite navigate_history_index, Hi by exact Hh. fold n.
      destruct (Z.leb_spec (Z.of_nat n) (-1 + 1)); [lia|].
      destruct (Z.ltb_spec (-1 + 1) (-1)); lia.
    - change (Nat.iter (S (S j)) (fun s => navigate_history s 1%Z) st)
        with (navigate_history (Nat.iter (S j) (fun s => navigate_history s 1%Z) st) 1%Z).
      assert (Hh' : history (Nat.iter (S j) (fun s => navigate_history s 1%Z) st) <> [])
        by (rewrite Hhist; exact Hh).
      rewrite navigate_history_index, IH, Hhist by exact Hh'. fold n.
      destruct (Z.leb_spec (Z.of_nat n) (Z.of_nat (Nat.min (S j) n) - 1 + 1)); [lia|].
      destruct (Z.ltb_spec (Z.of_nat (Nat.min (S j) n) - 1 + 1) (-1)); lia. }
  split; [apply Hidx|].
  change (Nat.iter (S k) (fun s => navigate_history s 1%Z) st)
    with (navigate_history (Nat.iter k (fun s => navigate_history s 1%Z) st) 1%Z).
  assert (Hh' : history (Nat.iter k (fun s => navigate_history s 1%Z) st) <> [])
    by (rewrite Hhist; exact Hh).
  rewrite navigate_history_text by exact Hh'.
  change (navigate_history (Nat.iter k (fun s => navigate_history s 1%Z) st) 1%Z)
    with (Nat.iter (S k) (fun s => navigate_history s 1%Z) st).
  rewrite Hidx, Hhist. fold n.
  rewrite (proj2 (Z.eqb_neq (Z.of_nat (Nat.min (S k) n) - 1) (-1))) by lia.
  f_equal. lia.
Qed.

Lemma navigate_up_repeated_witness :
  history history_doc_input <> [] /\ history_index history_doc_input = (-1)%Z /\
  let n := length (history history_doc_input) in
  let st' := Nat.iter 3 (fun s => navigate_history s 1%Z) history_doc_input in
  history_index st' = (Z.of_nat (Nat.min 3 n) - 1)%Z /\
  line_text st' = nth (n - Nat.min 3 n) (history history_doc_input) "".
Proof.
  split; [intro E; discriminate E|]. split; [reflexivity|].
  apply (navigate_up_repeated history_doc_input 2); [intro E; discriminate E | reflexivity].
Defined.

(** *** fix_jq_syntax *)

Lemma re_search_none_mono :
  forall (m1 m2 : string -> option string),
    (forall t, m1 t = None -> m2 t = None) -> forall t, re_search m1 t = None -> re_search m2 t = None.
Proof.
  intros m1 m2 Hm t. induction t as [|c r IH]; simpl; intros H.
  - destruct (m1 EmptyString) eqn:E; [discriminate|]. rewrite (Hm _ E). reflexivity.
  - destruct (m1 (String c r)) eqn:E; [discriminate|]. rewrite (Hm _ E). exact (IH H).
Qed.

(** X9 (_fix_jq_syntax): a query in which "sort" is nowhere followed by
    whitespace (for instance one already written with [sort_by]) is returned
    unchanged. *)
Theorem fix_jq_syntax_no_sort_ws :
  forall query, re_search match_sort_ws query = None -> fix_jq_syntax query = query.
Proof.
  intros query H.
  assert (Hsub : forall (m : string -> option string),
            (forall t, match_sort_ws t = None -> m t = None) -> re_search m query = None)
    by (intros m Hm; exact (re_search_none_mono _ _ Hm query H)).
  unfold fix_jq_syntax.
  rewrite (Hsub match_sort_r_key) by (intros t Ht; unfold match_sort_r_key; rewrite Ht; reflexivity).
  rewrite (Hsub match_sort_key) by (intros t Ht; unfold match_sort_key; rewrite Ht; reflexivity).
  destruct (str_contains "--key=" query);
  rewrite (Hsub match_sort_r) by (intros t Ht; unfold match_sort_r; rewrite Ht; reflexivity);
  reflexivity.
Qed.

Lemma fix_jq_syntax_no_sort_ws_witness :
  re_search match_sort_ws ".items | sort_by(.price) | reverse | sort" = None /\
  fix_jq_syntax ".items | sort_by(.price) | reverse | sort" = ".items | sort_by(.price) | reverse | sort".
Proof. split; [vm_compute; reflexivity|]. apply fix_jq_syntax_no_sort_ws. vm_compute. reflexivity. Defined.

(** *** The schema of an object document *)

Section ObjectSchema.

Context {R : Type} (rs : R -> list nat -> nat -> list nat * R).

Lemma entries_loop_In :
  forall (f : string -> py -> R -> py * R) d acc s k w,
    In (k, w) (fst (entries_loop f d acc s)) ->
    In (k, w) acc \/ exists v s0, In (k, v) d /\ w = fst (f k v s0).
Proof.
  intros f d. induction d as [|[key value] rest IH]; intros acc s k w H; simpl in H; [left; exact H|].
  destruct (f key value s) as [entry s1] eqn:Ef.
  destruct (IH _ _ _ _ H) as [Hacc|(v & s0 & Hin & ->)].
  - apply in_dict_set in Hacc as [Hacc|[-> ->]]; [left; exact Hacc|].
    right. exists value, s. split; [left; reflexivity | rewrite Ef; reflexivity].
  - right. exists v, s0. split; [right; exact Hin | reflexivity].
Qed.

Lemma entries_loop_nodup :
  forall (f : string -> py -> R -> py * R) d acc s,
    NoDup (map fst acc) -> NoDup (map fst (fst (entries_loop f d acc s))).
Proof.
  intros f d. induction d as [|[key value] rest IH]; intros acc s H; simpl; [exact H|].
  destruct (f key value s) as [entry s1]. apply IH. apply nodup_keys_dict_set. exact H.
Qed.

Lemma entries_loop_keys :
  forall (f : string -> py -> R -> py * R) d acc s,
    NoDup (map fst d) -> (forall k, In k (map fst d) -> dict_has k acc = false) ->
    map fst (fst (entries_loop f d acc s)) = map fst acc ++ map fst d.
Proof.
  intros f d. induction d as [|[key value] rest IH]; intros acc s Hnd Hacc; simpl.
  - rewrite app_nil_r. reflexivity.
  - inversion Hnd as [|? ? Hk Hr]; subst.
    destruct (f key value s) as [entry s1].
    rewrite IH; [| exact Hr |].
    + rewrite keys_dict_set, (Hacc key (or_introl eq_refl)), <- app_assoc. reflexivity.
    + intros k' Hk'. rewrite dict_set_fresh by exact (Hacc key (or_introl eq_refl)).
      rewrite dict_has_app, (Hacc k' (or_intror Hk')). simpl. unfold dict_has. simpl.
      destruct (String.eqb_spec k' key) as [->|_]; [contradiction | reflexivity].
Qed.

Lemma dict_get_nodup_In :
  forall k w d, NoDup (map fst d) -> In (k, w) d -> dict_get k d = Some w.
Proof.
  intros k w d. induction d as [|[k' v] r IH]; simpl; intros Hnd Hin; [contradiction|].
  inversion Hnd as [|? ? Hk Hr]; subst.
  destruct Hin as [E|Hin].
  - inversion E; subst. rewrite String.eqb_refl. reflexivity.
  - destruct (String.eqb_spec k k') as [->|_]; [|exact (IH Hr Hin)].
    exfalso. apply Hk. exact (in_map fst _ _ Hin).
Qed.

Lemma reserved_key_false :
  forall k, reserved_key k = false ->
    String.eqb k "type" = false /\ String.eqb k "properties" = false /\
    String.eqb k "element_type" = false /\ String.eqb k "stats" = false /\
    String.eqb k "__array_stats" = false /\ String.eqb k "elements" = false /\
    String.eqb k "[Root]" = false.
Proof.
  intros k H. unfold reserved_key in H. simpl in H.
  repeat rewrite orb_false_iff in H. tauto.
Qed.

Lemma get_item_path_app :
  forall a b, get_item_path (a ++ b) = get_item_path a ++ get_item_path b.
Proof. intros a b. unfold get_item_path. apply filter_app. Qed.

Lemma get_item_path_key :
  forall k, reserved_key k = false -> get_item_path [k] = [k].
Proof.
  intros k H. destruct (reserved_key_false k H) as (_ & _ & _ & _ & _ & He & Hr).
  unfold get_item_path. simpl. rewrite He, Hr. reflexivity.
Qed.

Lemma resolve_loop_index :
  forall p i j sch, resolve_loop (S i) p sch = resolve_loop (S j) p sch.
Proof.
  induction p as [|segment rest IH]; intros i j sch; [reflexivity|].
  simpl. destruct (py_in "__array_stats" sch) as [b|]; [|reflexivity].
  rewrite !andb_false_r. destruct sch; try reflexivity.
  repeat match goal with |- context [match ?x with _ => _ end] => destruct x end;
    try reflexivity; apply IH.
Qed.

Lemma resolve_direct_step :
  forall i k rest d w, dict_has "__array_stats" d = false -> dict_get k d = Some w ->
    resolve_loop i (k :: rest) (PDict d) = resolve_loop (S i) rest w.
Proof.
  intros i k rest d w H1 H2. cbn [resolve_loop py_in]. rewrite H1. simpl andb.
  rewrite H2. reflexivity.
Qed.

Lemma resolve_props_step :
  forall i k rest d p w, dict_has "__array_stats" d = false -> dict_get k d = None ->
    dict_get "properties" d = Some (PDict p) -> dict_get k p = Some w ->
    resolve_loop i (k :: rest) (PDict d) = resolve_loop (S i) rest w.
Proof.
  intros i k rest d p w H1 H2 H3 H4. cbn [resolve_loop py_in]. rewrite H1. simpl andb.
  rewrite H2, H3. cbn [py_in]. unfold dict_has at 1. rewrite H4. reflexivity.
Qed.

(** Every row with a schema that [_add_schema_item(key, sch)] builds is
    found again by [_get_schema_at_path] from [sch] along the rest of its
    path. *)
Definition good_item (key : string) (sch : py) : Prop :=
  forall above chain x, In (chain, Some x) (item_nodes above (add_schema_item key sch)) ->
    exists rest, get_item_path chain = get_item_path above ++ key :: rest /\
                 resolve_loop 1 rest sch = LFound x.

Lemma good_item_leaf :
  forall key sch,
    (forall above, item_nodes above (add_schema_item key sch) = [(above ++ [key], Some sch)]) ->
    reserved_key key = false -> good_item key sch.
Proof.
  intros key sch Hn Hk above chain x Hin. rewrite Hn in Hin.
  destruct Hin as [E|[]]. inversion E; subst.
  exists []. split; [rewrite get_item_path_app, get_item_path_key by exact Hk; reflexivity | reflexivity].
Qed.

Lemma good_item_props :
  forall key d p extra_label,
    reserved_key key = false ->
    NoDup (map fst p) ->
    dict_has "__array_stats" d = false ->
    dict_get "properties" d = Some (PDict p) ->
    (forall k, reserved_key k = false -> dict_get k d = None) ->
    (forall k w, In (k, w) p -> reserved_key k = false /\ good_item k w) ->
    get_item_path extra_label = [] ->
    (forall above, exists others,
       item_nodes above (add_schema_item key (PDict d))
       = (above ++ [key], Some (PDict d)) :: others
         ++ flat_map (item_nodes ((above ++ [key]) ++ extra_label))
                     (map (fun '(k, v) => add_schema_item k v) p)
       /\ forall c y, ~ In (c, Some y) others) ->
    good_item key (PDict d).
Proof.
  intros key d p extra Hk Hnd Hst Hp Hd Hkids Hextra Hn above chain x Hin.
  destruct (Hn above) as (others & Ht & Ho). rewrite Ht in Hin.
  destruct Hin as [E|Hin].
  - inversion E; subst. exists [].
    split; [rewrite get_item_path_app, get_item_path_key by exact Hk; reflexivity | reflexivity].
  - apply in_app_or in Hin as [Hin|Hin]; [exfalso; exact (Ho _ _ Hin)|].
    apply in_flat_map in Hin as (t & Ht' & Hin).
    apply in_map_iff in Ht' as ([k w] & Et & Hkw). subst t.
    destruct (Hkids k w Hkw) as [Hkr Hg].
    destruct (Hg _ _ _ Hin) as (rest & Hpath & Hres).
    exists (k :: rest). split.
    + rewrite Hpath, !get_item_path_app, get_item_path_key, Hextra by exact Hk.
      rewrite app_nil_r, <- app_assoc. reflexivity.
    + rewrite (resolve_props_step 1 k rest d p w Hst (Hd k Hkr) Hp (dict_get_nodup_In _ _ _ Hnd Hkw)).
      rewrite (resolve_loop_index rest 1 0). exact Hres.
Qed.

Lemma no_reserved_dict :
  forall d, no_reserved (PDict d) = true ->
    forall k v, In (k, v) d -> reserved_key k = false /\ no_reserved v = true.
Proof.
  intros d H k v Hin. simpl in H. rewrite forallb_forall in H.
  apply H in Hin. simpl in Hin. apply andb_true_iff in Hin as [H1 H2].
  split; [apply negb_true_iff; exact H1 | exact H2].
Qed.

Lemma entries_nodup :
  forall (f : string -> py -> R -> py * R) d s, NoDup (map fst (fst (entries_loop f d [] s))).
Proof. intros f d s. apply entries_loop_nodup. constructor. Qed.

Lemma good_item_array_base :
  forall key et st, reserved_key key = false ->
    good_item key (PDict [("type", PStr "array"); ("element_type", PStr et); ("stats", PDict st)]).
Proof.
  intros key et st Hk above chain x Hin.
  change (item_nodes above (add_schema_item key
            (PDict [("type", PStr "array"); ("element_type", PStr et); ("stats", PDict st)])))
    with [(above ++ [key], Some (PDict [("type", PStr "array"); ("element_type", PStr et);
                                         ("stats", PDict st)]));
          ((above ++ [key]) ++ ["elements"], None)] in Hin.
  destruct Hin as [E|[E|[]]]; [|discriminate E].
  inversion E; subst. exists [].
  split; [rewrite get_item_path_app, get_item_path_key by exact Hk; reflexivity | reflexivity].
Qed.

Lemma good_item_array_props :
  forall key et st p, reserved_key key = false -> NoDup (map fst p) ->
    (forall k w, In (k, w) p -> reserved_key k = false /\ good_item k w) ->
    good_item key (PDict (dict_set "properties" (PDict p)
                   [("type", PStr "array"); ("element_type", PStr et); ("stats", PDict st)])).
Proof.
  intros key et st p Hk Hnd Hkids.
  apply good_item_props with (p := p) (extra_label := ["elements"]).
  - exact Hk.
  - exact Hnd.
  - reflexivity.
  - reflexivity.
  - intros k Hkr. destruct (reserved_key_false k Hkr) as (H1 & H2 & H3 & H4 & _).
    simpl. rewrite H1, H2, H3, H4. reflexivity.
  - exact Hkids.
  - reflexivity.
  - intros above. exists [((above ++ [key]) ++ ["elements"], None)]. split.
    + simpl. rewrite app_nil_r. reflexivity.
    + intros c y [E|[]]. discriminate E.
Qed.

Lemma good_item_object :
  forall key p, reserved_key key = false -> NoDup (map fst p) ->
    (forall k w, In (k, w) p -> reserved_key k = false /\ good_item k w) ->
    good_item key (PDict [("type", PStr "object"); ("properties", PDict p)]).
Proof.
  intros key p Hk Hnd Hkids.
  apply good_item_props with (p := p) (extra_label := []).
  - exact Hk.
  - exact Hnd.
  - reflexivity.
  - reflexivity.
  - intros k Hkr. destruct (reserved_key_false k Hkr) as (H1 & H2 & _).
    simpl. rewrite H1, H2. reflexivity.
  - exact Hkids.
  - reflexivity.
  - intros above. exists []. split.
    + rewrite app_nil_r. reflexivity.
    + intros c y [].
Qed.

Lemma entries_good :
  forall d s, no_reserved (PDict d) = true ->
    Forall (fun kv => no_reserved (snd kv) = true -> forall obj key s0, reserved_key key = false ->
                        good_item key (fst (analyze_value rs obj key (snd kv) s0))) d ->
    forall k w, In (k, w) (fst (entries_loop (analyze_value rs d) d [] s)) ->
      reserved_key k = false /\ good_item k w.
Proof.
  intros d s Hv HF k w Hin.
  destruct (entries_loop_In _ _ _ _ _ _ Hin) as [[]|(v0 & s0 & Hkv & ->)].
  destruct (no_reserved_dict d Hv k v0 Hkv) as [Hkr Hv0].
  split; [exact Hkr|].
  rewrite Forall_forall in HF. exact (HF (k, v0) Hkv Hv0 d k s0 Hkr).
Qed.

Lemma analyze_value_good :
  forall v, no_reserved v = true ->
    (forall obj key s, reserved_key key = false -> good_item key (fst (analyze_value rs obj key v s))) /\
    (forall d, v = PDict d -> forall s k w,
       In (k, w) (fst (entries_loop (analyze_value rs d) d [] s)) ->
       reserved_key k = false /\ good_item k w).
Proof.
  intros v. induction v as [| | | | | str | l IHl | l IHl | d IHd] using py_ind'; intros Hv;
    try (split; [intros obj key s Hk; apply good_item_leaf; [intros above; reflexivity | exact Hk]
                | intros d0 E; discriminate E]).
  - split; [intros obj key s Hk | intros d0 E; discriminate E].
    cbn [analyze_value]. destruct (compute_array_stats rs s l) as [st s'].
    destruct l as [|[| | | | | | | | d0] r]; try (apply good_item_array_base; exact Hk).
    pose proof (entries_nodup (analyze_value rs d0) d0 s') as Hnd.
    simpl in Hv. apply andb_true_iff in Hv as [Hd0 _].
    inversion IHl as [|? ? IHd0 _]; subst.
    destruct (IHd0 Hd0) as [_ Hent].
    pose proof (Hent d0 eq_refl s') as Hent'.
    destruct (entries_loop (analyze_value rs d0) d0 [] s') as [p s''] eqn:Ep. cbv beta iota.
    apply good_item_array_props; [exact Hk | exact Hnd | exact Hent'].
  - assert (Hent : forall s k w, In (k, w) (fst (entries_loop (analyze_value rs d) d [] s)) ->
                                 reserved_key k = false /\ good_item k w).
    { intros s. apply entries_good; [exact Hv|].
      rewrite Forall_forall in IHd |- *. intros kv Hkv Hv0. exact (proj1 (IHd kv Hkv Hv0)). }
    split; [intros obj key s Hk | intros d0 E s k w; inversion E; subst d0; apply Hent].
    cbn [analyze_value].
    pose proof (entries_nodup (analyze_value rs d) d s) as Hnd.
    pose proof (Hent s) as Hent'.
    destruct (entries_loop (analyze_value rs d) d [] s) as [p s'] eqn:Ep. cbv beta iota.
    apply good_item_object; [exact Hk | exact Hnd | exact Hent'].
Qed.

End ObjectSchema.

Lemma root_rows_resolve :
  forall info chain x, NoDup (map fst info) -> dict_has "__array_stats" info = false ->
    (forall k w, In (k, w) info -> reserved_key k = false /\ good_item k w) ->
    In (chain, Some x) (tree_nodes (update_schema_tree info)) ->
    get_schema_at_path info (get_item_path chain) = LFound x.
Proof.
  intros info chain x Hnd Hst Hkids Hin.
  assert (Hu : update_schema_tree info
               = [Item "[Root]" (Some (PDict info)) (map (fun '(k, v) => add_schema_item k v) info)]).
  { destruct info as [|kv0 rest]; [contradiction|]. unfold update_schema_tree. rewrite Hst. reflexivity. }
  rewrite Hu in Hin. unfold tree_nodes in Hin. simpl flat_map in Hin.
  rewrite app_nil_r in Hin. cbn [item_nodes] in Hin.
  destruct Hin as [E|Hin].
  - inversion E; subst. reflexivity.
  - apply in_flat_map in Hin as (t & Ht & Hin).
    apply in_map_iff in Ht as ([k w] & Et & Hkw). subst t.
    destruct (Hkids k w Hkw) as [Hkr Hg].
    destruct (Hg _ _ _ Hin) as (rest' & Hpath & Hres).
    rewrite Hpath. simpl get_item_path. simpl app. unfold get_schema_at_path.
    rewrite (resolve_direct_step 0 k rest' info w Hst (dict_get_nodup_In _ _ _ Hnd Hkw)).
    exact Hres.
Qed.

(** X10 (update_schema_tree, _add_schema_item, _get_item_path,
    _get_schema_at_path, analyze_json): for an object document in which no
    key (at any depth) is one of the schema's own keys ("type",
    "properties", "element_type", "stats", "__array_stats") or one of the
    texts [_get_item_path] drops ("elements", "[Root]"), every row of the
    schema tree that carries a schema is found again by
    [_get_schema_at_path] from the path [_get_item_path] gives for it. *)
Theorem object_schema_rows_resolve :
  forall {R} (rs : R -> list nat -> nat -> list nat * R) s d chain x,
    no_reserved (PDict d) = true ->
    In (chain, Some x) (tree_nodes (update_schema_tree (fst (analyze_json rs (PDict d) s)))) ->
    get_schema_at_path (fst (analyze_json rs (PDict d) s)) (get_item_path chain) = LFound x.
Proof.
  intros R rs s d chain x Hv Hin.
  cbn [analyze_json] in *. unfold analyze_object in *.
  assert (Hent : forall k w, In (k, w) (fst (entries_loop (analyze_value rs d) d [] s)) ->
                             reserved_key k = false /\ good_item k w)
    by exact (proj2 (analyze_value_good rs (PDict d) Hv) d eq_refl s).
  apply root_rows_resolve; [apply entries_nodup | | exact Hent | exact Hin].
  apply dict_has_false_not_in. intros Hk. apply in_map_iff in Hk as ([k w] & Ek & Hkw).
  simpl in Ek. subst k. destruct (Hent _ _ Hkw) as [Hr _]. discriminate Hr.
Qed.

Definition tree_doc : list (string * py) :=
  [("name", PStr "x"); ("items", PList [PDict [("id", PInt 1)]; PDict [("id", PInt 2)]])].

Lemma object_schema_rows_resolve_witness :
  no_reserved (PDict tree_doc) = true /\
  In (["[Root]"; "items"; "elements"; "id"],
      Some (fst (analyze_value first_sample [("id", PInt 1)] "id" (PInt 1) tt)))
     (tree_nodes (update_schema_tree (fst (analyze_json first_sample (PDict tree_doc) tt)))) /\
  get_schema_at_path (fst (analyze_json first_sample (PDict tree_doc) tt))
    (get_item_path ["[Root]"; "items"; "elements"; "id"])
  = LFound (fst (analyze_value first_sample [("id", PInt 1)] "id" (PInt 1) tt)).
Proof.
  assert (Hin : In (["[Root]"; "items"; "elements"; "id"],
      Some (fst (analyze_value first_sample [("id", PInt 1)] "id" (PInt 1) tt)))
     (tree_nodes (update_schema_tree (fst (analyze_json first_sample (PDict tree_doc) tt))))).
  { vm_compute. repeat (first [left; reflexivity | right]). }
  split; [reflexivity|]. split; [exact Hin|].
  apply object_schema_rows_resolve; [reflexivity | exact Hin].
Defined.

(** X11 (analyze_json, _analyze_object): the schema of an object document
    whose keys are distinct has exactly the document's keys, in the
    document's order. *)
Theorem analyze_json_object_keys :
  forall {R} (rs : R -> list nat -> nat -> list nat * R) s d,
    keys_unique (map fst d) = true ->
    map fst (fst (analyze_json rs (PDict d) s)) = map fst d.
Proof.
  intros R rs s d Hd. cbn [analyze_json]. unfold analyze_object.
  rewrite entries_loop_keys; [reflexivity | exact (keys_unique_NoDup _ Hd) | reflexivity].
Qed.

Lemma analyze_json_object_keys_witness :
  keys_unique (map fst tree_doc) = true /\
  map fst (fst (analyze_json first_sample (PDict tree_doc) tt)) = map fst tree_doc.
Proof. split; [reflexivity|]. apply analyze_json_object_keys. reflexivity. Defined.

Lemma compute_value_stats_number :
  forall key v obj, is_int_or_float v = true -> dict_get key obj = Some v ->
    compute_value_stats key v obj
    = [("type", PStr (type_name v)); ("value", v); ("min", v); ("max", v)].
Proof.
  intros key v obj Hn Hg. unfold compute_value_stats. rewrite Hn.
  destruct obj as [|kv r]; [discriminate|]. rewrite Hg. reflexivity.
Qed.

(** X12 (_compute_value_stats, _analyze_object, analyze_json): in the schema
    of an object document with distinct keys, the entry of a number (or
    boolean) member is its type, its value, stats whose ["min"] and ["max"]
    are both the value itself, and the value as its only example. *)
Theorem analyze_json_number_member :
  forall {R} (rs : R -> list nat -> nat -> list nat * R) s d k v,
    keys_unique (map fst d) = true -> dict_get k d = Some v -> is_int_or_float v = true ->
    dict_get k (fst (analyze_json rs (PDict d) s))
    = Some (PDict [("type", PStr (type_name v)); ("value", v);
                   ("stats", PDict [("type", PStr (type_name v)); ("value", v); ("min", v); ("max", v)]);
                   ("examples", PList [v])]).
Proof.
  intros R rs s d k v Hd Hg Hn. cbn [analyze_json]. unfold analyze_object.
  pose proof (keys_unique_NoDup _ Hd) as Hnd.
  assert (Hk : In k (map fst (fst (entries_loop (analyze_value rs d) d [] s)))).
  { rewrite entries_loop_keys; [|exact Hnd|reflexivity].
    simpl. apply (in_map fst _ (k, v)). exact (dict_get_In _ _ _ Hg). }
  apply in_map_iff in Hk as ([k' w] & Ek & Hkw). simpl in Ek. subst k'.
  rewrite (dict_get_nodup_In _ _ _ (entries_nodup _ _ _) Hkw).
  destruct (entries_loop_In _ _ _ _ _ _ Hkw) as [[]|(v0 & s0 & Hkv & ->)].
  rewrite (dict_get_nodup_In _ _ _ Hnd Hkv) in Hg. inversion Hg; subst v0.
  destruct v; try discriminate Hn; cbn [analyze_value fst];
    rewrite compute_value_stats_number by (exact Hn || exact (dict_get_nodup_In _ _ _ Hnd Hkv));
    reflexivity.
Qed.

Lemma analyze_json_number_member_witness :
  keys_unique (map fst [("id", PInt 7); ("ok", PBool true)]) = true /\
  dict_get "id" [("id", PInt 7); ("ok", PBool true)] = Some (PInt 7) /\
  is_int_or_float (PInt 7) = true /\
  dict_get "id" (fst (analyze_json first_sample (PDict [("id", PInt 7); ("ok", PBool true)]) tt))
  = Some (PDict [("type", PStr (type_name (PInt 7))); ("value", PInt 7);
                 ("stats", PDict [("type", PStr (type_name (PInt 7))); ("value", PInt 7);
                                  ("min", PInt 7); ("max", PInt 7)]);
                 ("examples", PList [PInt 7])]).
Proof.
  split; [reflexivity|]. split; [reflexivity|]. split; [reflexivity|].
  apply analyze_json_number_member; reflexivity.
Defined.
